(** * Timelapse encoder of pdx-tools: date sequencing, frame encoding, finalization

    A shallow embedding of
    [src/app/src/features/eu4/features/settings/TimelapseEncoder.tsx]:
    the [dates] async generator, the [TimelapseEncoder] class
    ([timelapse], [stop], [finish]) and the codec negotiation of
    [TimelapseEncoder.create].

    JavaScript numbers that carry timestamps, durations, frame rates and
    bitrates are kept abstract behind the [Number] class, so that one and the
    same definition of the code runs over IEEE 754 binary64 (what the engine
    computes with) and over exact rationals.  Integer-valued quantities
    ([MapDate.days], [frameCount], canvas dimensions) are [Z]. *)

From Stdlib Require Import ZArith QArith Qminmax List String Bool Lia Lqa.
From Stdlib Require Import PrimFloat Uint63.
From Stdlib Require DecimalString.
Import ListNotations.

Set Implicit Arguments.
Open Scope Z_scope.

(** ** JavaScript numbers *)

Class Number (num : Type) := {
  of_Z : Z -> num;                 (* an integer literal *)
  nadd : num -> num -> num;        (* [+] *)
  nmul : num -> num -> num;        (* [*] *)
  ndiv : num -> num -> num;        (* [/] *)
  nltb : num -> num -> bool;       (* [<] *)
  nleb : num -> num -> bool;       (* [<=] *)
  nmin : num -> num -> num;        (* [Math.min] *)
}.

(** Exact rational arithmetic. *)
#[export] Instance Number_Q : Number Q := {
  of_Z := inject_Z;
  nadd := Qplus;
  nmul := Qmult;
  ndiv := Qdiv;
  nltb := fun x y => negb (Qle_bool y x);
  nleb := Qle_bool;
  nmin := Qmin;
}.

(** IEEE 754 binary64, the representation of a JavaScript number. *)
Definition float_of_Z (z : Z) : float :=
  if z <? 0 then PrimFloat.opp (PrimFloat.of_uint63 (Uint63.of_Z (- z)))
  else PrimFloat.of_uint63 (Uint63.of_Z z).

(** [Math.min]: NaN if either argument is NaN, and -0 below +0. *)
Definition float_min (x y : float) : float :=
  if PrimFloat.is_nan x then x
  else if PrimFloat.is_nan y then y
  else if PrimFloat.ltb x y then x
  else if PrimFloat.ltb y x then y
  else if PrimFloat.get_sign x then x else y.

#[export] Instance Number_float : Number float := {
  of_Z := float_of_Z;
  nadd := PrimFloat.add;
  nmul := PrimFloat.mul;
  ndiv := PrimFloat.div;
  nltb := PrimFloat.ltb;
  nleb := PrimFloat.leb;
  nmin := float_min;
}.

(** ** Data model *)

(** [type DateInterval = "Year" | "Month" | "Week" | "Day"] *)
Inductive DateInterval := Year | Month | Week | Day.

(** [MapDate]: the day ordinal and its label. *)
Record MapDate := { days : Z; text : string }.

(** What a call either returns or throws. *)
Inductive Outcome (A : Type) :=
| Returns (a : A)
| Throws (message : string).
Arguments Returns {A} a.
Arguments Throws {A} message.

(** The exceptions a closed [VideoEncoder] answers with are the platform's;
    their wording differs between browsers, so each stands here under the
    name of its [DOMException]. *)
Definition invalid_state_error : string := "InvalidStateError".
Definition abort_error : string := "AbortError".

(** ** The date sequencer [dates] *)

Section Dates.

(** [worker.eu4IncrementDate], answered by the external engine. *)
Variable eu4IncrementDate : Z -> DateInterval -> MapDate.
Variables (start end_ : MapDate) (step : DateInterval).

(** One resumption of the generator after [yield current]: the body from
    line 18 to the next [yield], [None] when the loop breaks. *)
Definition dates_resume (current : MapDate) : option MapDate :=
  let newDate := eu4IncrementDate (days current) step in
  if days current >=? days end_ then None
  else if days newDate >? days end_ then Some end_
  else Some newDate.

(** The dates yielded from [current] on, when the generator is driven to
    completion within [fuel] resumptions. *)
Fixpoint dates_from (fuel : nat) (current : MapDate) : option (list MapDate) :=
  match fuel with
  | O => None
  | S fuel' =>
      match dates_resume current with
      | None => Some [current]
      | Some next =>
          match dates_from fuel' next with
          | Some rest => Some (current :: rest)
          | None => None
          end
      end
  end.

(** [dates(worker, start, end, step)], driven to completion. *)
Definition dates (fuel : nat) : option (list MapDate) := dates_from fuel start.

End Dates.

(** Consecutive [days] never decrease. *)
Fixpoint days_nondecreasing (l : list MapDate) : Prop :=
  match l with
  | a :: (b :: _) as rest => days a <= days b /\ days_nondecreasing rest
  | _ => True
  end.

(** An engine that steps by a fixed number of days per interval; used to run
    the definitions on concrete inputs. *)
Definition fixed_step_engine (d : Z) (step : DateInterval) : MapDate :=
  {| days := d + match step with Year => 365 | Month => 30 | Week => 7 | Day => 1 end;
     text := EmptyString |}.

Definition mkdate (d : Z) : MapDate := {| days := d; text := EmptyString |}.

(** ** The encoder pipeline [TimelapseEncoder] *)

Section Pipeline.

Context {num : Type} {number : Number num}.

(** [new VideoFrame(this.ctx2d.canvas, { timestamp, duration })]: the image is
    the recording canvas as it was last composited, identified by the date
    whose colours and label were painted on it. *)
Record VideoFrame := {
  f_timestamp : num;
  f_duration : num;
  f_image : option MapDate;
}.

(** One call [this.encoder.encode(frame, { keyFrame })]. *)
Record EncodeCall := {
  frame : VideoFrame;
  keyFrame : bool;
}.

(** The constructor arguments that [timelapse] reads. *)
Record TimelapseEncoderOptions := {
  fps : num;
  interval : DateInterval;
  startDate : MapDate;
  endDate : MapDate;
  freezeFrame : num;
}.

(** The mutable fields of a [TimelapseEncoder] and the collaborators it owns:
    the recording canvas, the encoder (the calls it received and its queue of
    frames whose output is still to be delivered) and the muxer (the chunks
    the encoder's [output] callback added). *)
Record Pipeline := {
  error : option string;
  timestamp : num;
  frameCount : Z;
  stopRequested : bool;
  canvas : option MapDate;
  submitted : list EncodeCall;
  pending : list EncodeCall;
  muxer : list EncodeCall;
  encoderClosed : bool;
}.

(** State right after the constructor. *)
Definition new_pipeline : Pipeline :=
  {| error := None; timestamp := of_Z 0; frameCount := 0; stopRequested := false;
     canvas := None; submitted := []; pending := []; muxer := [];
     encoderClosed := false |}.

(** The [error] callback of the encoder, [(e) => (this.error = e)]: all that
    the program itself does when the encoder fails.  What the platform has
    done to the encoder by the time it runs the callback is [encoder_fails]
    below. *)
Definition on_encoder_error (message : string) (p : Pipeline) : Pipeline :=
  {| error := Some message; timestamp := timestamp p; frameCount := frameCount p;
     stopRequested := stopRequested p; canvas := canvas p; submitted := submitted p;
     pending := pending p; muxer := muxer p; encoderClosed := encoderClosed p |}.

(** [stop()] *)
Definition stop (p : Pipeline) : Outcome unit * Pipeline :=
  (Returns tt,
   {| error := error p; timestamp := timestamp p; frameCount := frameCount p;
      stopRequested := true; canvas := canvas p; submitted := submitted p;
      pending := pending p; muxer := muxer p; encoderClosed := encoderClosed p |}).

(** [create2dFrame(date.text)] after the map was recoloured for [date.days]. *)
Definition create2dFrame (date : MapDate) (p : Pipeline) : Pipeline :=
  {| error := error p; timestamp := timestamp p; frameCount := frameCount p;
     stopRequested := stopRequested p; canvas := Some date; submitted := submitted p;
     pending := pending p; muxer := muxer p; encoderClosed := encoderClosed p |}.

(** Lines 131-141 and 154-163: build the frame from the canvas and submit it,
    [keyFrame: (this.frameCount += 1) % 150 == 0]. *)
Definition encode (t duration : num) (p : Pipeline) : Pipeline :=
  let count := frameCount p + 1 in
  let call := {| frame := {| f_timestamp := t; f_duration := duration; f_image := canvas p |};
                 keyFrame := Z.rem count 150 =? 0 |} in
  {| error := error p; timestamp := timestamp p; frameCount := count;
     stopRequested := stopRequested p; canvas := canvas p;
     submitted := submitted p ++ [call];
     pending := pending p ++ [call]; muxer := muxer p; encoderClosed := encoderClosed p |}.

(** [await this.encoder.flush()] has resolved: every queued frame went through
    the [output] callback into [muxer.addVideoChunk].  The platform may run
    the callback before it resolves the promise, never after; the chunk is
    entered here, the first point at which the program can count on it. *)
Definition flushed (p : Pipeline) : Pipeline :=
  {| error := error p; timestamp := timestamp p; frameCount := frameCount p;
     stopRequested := stopRequested p; canvas := canvas p; submitted := submitted p;
     pending := []; muxer := muxer p ++ pending p; encoderClosed := encoderClosed p |}.

(** [this.timestamp += frameDuration] *)
Definition advance_timestamp (duration : num) (p : Pipeline) : Pipeline :=
  {| error := error p; timestamp := nadd (timestamp p) duration; frameCount := frameCount p;
     stopRequested := stopRequested p; canvas := canvas p; submitted := submitted p;
     pending := pending p; muxer := muxer p; encoderClosed := encoderClosed p |}.

(** [this.encoder.close()] *)
Definition close_encoder (p : Pipeline) : Pipeline :=
  {| error := error p; timestamp := timestamp p; frameCount := frameCount p;
     stopRequested := stopRequested p; canvas := canvas p; submitted := submitted p;
     pending := pending p; muxer := muxer p; encoderClosed := true |}.

(** *** [finish()] *)

Section Finish.

Variable Buffer : Type.

(** [this.muxer.finalize()], of the webm-muxer package: the container built
    from the chunks added so far, or [null]. *)
Variable finalize : list EncodeCall -> option Buffer.

Definition finish (p : Pipeline) : Outcome Buffer * Pipeline :=
  match finalize (muxer p) with
  | None => (Throws "empty muxer", p)
  | Some out => (Returns out, close_encoder p)
  end.

End Finish.

(** The muxer of lines 66-73 writes to memory ([target: "buffer"]).  The
    webm-muxer package is not part of the repository; with that target its
    [finalize()] returns the buffer it wrote, the header of the track first
    and the chunks added so far after it, also when no chunk was added, and
    [null] only with the other targets. *)
Record WebmContainer := {
  clusters : list EncodeCall;
}.

Definition buffer_finalize (chunks : list EncodeCall) : option WebmContainer :=
  Some {| clusters := chunks |}.

(** The encoder can still be closed: it has neither reported an error (the
    platform closes an encoder before it runs its [error] callback) nor been
    closed by [finish()]; [close()] throws on a closed encoder. *)
Definition encoder_open (p : Pipeline) : Prop :=
  error p = None /\ encoderClosed p = false.

(** *** What the platform does to a failing encoder

    A [VideoEncoder] that fails is closed by the platform, which rejects the
    pending [flush()] with the failure and only then runs the [error]
    callback; nothing of the kind happens to an encoder that is closed
    already.  What was still queued never reaches the muxer. *)
Definition encoder_fails (message : string) (p : Pipeline) : Pipeline :=
  if encoderClosed p then p else close_encoder (on_encoder_error message p).

(** Lines 127-139 on a closed encoder: the frame is painted and built, the
    argument [(this.frameCount += 1) % 150 == 0] is evaluated, and
    [encode()] throws instead of queueing the frame. *)
Definition rejected_encode (date : MapDate) (p : Pipeline) : Pipeline :=
  let p1 := create2dFrame date p in
  {| error := error p1; timestamp := timestamp p1; frameCount := frameCount p1 + 1;
     stopRequested := stopRequested p1; canvas := canvas p1; submitted := submitted p1;
     pending := pending p1; muxer := muxer p1; encoderClosed := encoderClosed p1 |}.

(** *** The [timelapse()] generator as a resumable machine

    The generator runs synchronously from one suspension to the next.  It
    suspends at every [await] (the two worker requests and the encoder flush)
    and at [yield date]; the encoder's [error] callback and the caller's
    [stop()] can only run while it is suspended. *)

Inductive Control :=
| Created                                     (* not advanced yet *)
| AwaitColors (date : MapDate)                (* line 122, checks passed *)
| AwaitFlush (date : MapDate)                 (* line 142 *)
| AwaitFreezeFlush (date : MapDate) (t : num) (* line 164, loop variable [t] *)
| Yielded (date : MapDate)                    (* line 168 *)
| AwaitIncrement (current : MapDate)          (* line 18, inside [dates] *)
| Returned                                    (* completed *)
| Thrown (message : string).                  (* completed by an exception *)

Record Machine := {
  pipe : Pipeline;
  ctl : Control;
}.

Section Timelapse.

Variable eu4IncrementDate : Z -> DateInterval -> MapDate.
Variable opts : TimelapseEncoderOptions.

(** [const frameDuration = 1_000_000 / this.fps] *)
Definition frameDuration : num := ndiv (of_Z 1000000) (fps opts).

(** A date arrives from [dates]: lines 114-120, then the request of line 122. *)
Definition visit (date : MapDate) (p : Pipeline) : Machine :=
  match error p with
  | Some message => {| pipe := p; ctl := Thrown message |}
  | None =>
      if stopRequested p then {| pipe := p; ctl := Returned |}
      else {| pipe := p; ctl := AwaitColors date |}
  end.

(** The test and body of the loop of lines 149-165 for loop variable [t]. *)
Definition freeze_iteration (date : MapDate) (t : num) (p : Pipeline) : Machine :=
  if nltb t (nadd (timestamp p) (nmul (freezeFrame opts) (of_Z 1000000)))
  then {| pipe := encode t frameDuration p; ctl := AwaitFreezeFlush date t |}
  else {| pipe := p; ctl := Yielded date |}.

(** The generator runs from its suspension point to the next one. *)
Definition step (m : Machine) : Machine :=
  let p := pipe m in
  match ctl m with
  | Created => visit (startDate opts) p
  | AwaitColors date =>
      let p1 := create2dFrame date p in
      {| pipe := encode (timestamp p1) frameDuration p1; ctl := AwaitFlush date |}
  | AwaitFlush date =>
      let p1 := advance_timestamp frameDuration (flushed p) in
      if days date >=? days (endDate opts)
      then freeze_iteration date (timestamp p1) p1
      else {| pipe := p1; ctl := Yielded date |}
  | AwaitFreezeFlush date t =>
      freeze_iteration date (nadd t frameDuration) (flushed p)
  | Yielded date => {| pipe := p; ctl := AwaitIncrement date |}
  | AwaitIncrement current =>
      match dates_resume eu4IncrementDate (endDate opts) (interval opts) current with
      | None => {| pipe := p; ctl := Returned |}
      | Some next => visit next p
      end
  | Returned => m
  | Thrown _ => m
  end.

(** What can happen to a suspended generator. *)
Inductive Event :=
| Resume                          (* the awaited promise resolves, or [next()] *)
| EncoderError (message : string) (* the encoder's [error] callback fires *)
| StopCall.                       (* the caller invokes [stop()] *)

(** The generator and the two callbacks as the lines of the program read,
    on an encoder that goes on taking frames; [platform_react] below adds
    what the platform does to an encoder that fails. *)
Definition react (m : Machine) (e : Event) : Machine :=
  match e with
  | Resume => step m
  | EncoderError message => {| pipe := on_encoder_error message (pipe m); ctl := ctl m |}
  | StopCall => {| pipe := snd (stop (pipe m)); ctl := ctl m |}
  end.

Definition run (events : list Event) (m : Machine) : Machine :=
  fold_left react events m.

(** A fresh encoder on which [timelapse()] was just called. *)
Definition created : Machine := {| pipe := new_pipeline; ctl := Created |}.

(** The same generator on the platform's encoder.  It differs from [step]
    only once the encoder is closed: resumed with the colours of a date, the
    generator runs into the [encode()] that throws; resumed from a flush, it
    finds the promise rejected, with the failure the callback captured (or,
    had the encoder been closed by [close()], with an abort). *)
Definition platform_step (m : Machine) : Machine :=
  let p := pipe m in
  if encoderClosed p then
    match ctl m with
    | AwaitColors date =>
        {| pipe := rejected_encode date p; ctl := Thrown invalid_state_error |}
    | AwaitFlush _ | AwaitFreezeFlush _ _ =>
        {| pipe := p;
           ctl := Thrown match error p with
                         | Some message => message
                         | None => abort_error
                         end |}
    | _ => step m
    end
  else step m.

Definition platform_react (m : Machine) (e : Event) : Machine :=
  match e with
  | Resume => platform_step m
  | EncoderError message => {| pipe := encoder_fails message (pipe m); ctl := ctl m |}
  | StopCall => {| pipe := snd (stop (pipe m)); ctl := ctl m |}
  end.

Definition platform_run (events : list Event) (m : Machine) : Machine :=
  fold_left platform_react events m.

(** The generator is suspended between two dates: the frames of the previous
    date are done and the checks of the next date are still ahead. *)
Definition between_dates (c : Control) : bool :=
  match c with
  | Created | Yielded _ | AwaitIncrement _ => true
  | _ => false
  end.

(** The date whose checks come next, if the sequencer has one. *)
Definition next_date (c : Control) : option MapDate :=
  match c with
  | Created => Some (startDate opts)
  | Yielded date | AwaitIncrement date =>
      dates_resume eu4IncrementDate (endDate opts) (interval opts) date
  | _ => None
  end.

(** The generator has completed. *)
Definition completed (c : Control) : bool :=
  match c with
  | Returned | Thrown _ => true
  | _ => false
  end.

End Timelapse.

End Pipeline.

Arguments VideoFrame : clear implicits.
Arguments EncodeCall : clear implicits.
Arguments TimelapseEncoderOptions : clear implicits.
Arguments Pipeline : clear implicits.
Arguments Control : clear implicits.
Arguments Machine : clear implicits.
Arguments WebmContainer : clear implicits.

(** No encoder error occurs among [events]. *)
Definition error_free (events : list Event) : Prop :=
  forall message, ~ In (EncoderError message) events.

(** ** Codec negotiation: [findSupportedEncoder] inside [TimelapseEncoder.create] *)

Section CodecNegotiation.

Context {num : Type} {number : Number num}.

Inductive BitrateMode := ConstantBitrate | VariableBitrate.

(** [webmCodec: "V_VP8" | "V_VP9"] *)
Inductive WebmCodec := V_VP8 | V_VP9.

Record VideoEncoderConfig := {
  codec : string;
  height : Z;
  width : Z;
  bitrateMode : BitrateMode;
  bitrate : num;
  framerate : num;
}.

(** The answer of [VideoEncoder.isConfigSupported]. *)
Record VideoEncoderSupport := {
  supported : bool;
  config : VideoEncoderConfig;
}.

(** [{ ...codec, ...support.config }]: the muxer tag of the candidate and the
    configuration the platform answered with. *)
Record EncoderConfig := {
  webmCodec : WebmCodec;
  negotiated : VideoEncoderConfig;
}.

(** The platform's capability query; it may reject. *)
Variable isConfigSupported : VideoEncoderConfig -> Outcome VideoEncoderSupport.

(** [recordingCanvas.width], [recordingCanvas.height] and [fps]. *)
Variables (canvasWidth canvasHeight : Z) (targetFps : num).

Definition codecs : list (string * WebmCodec) :=
  [("vp09.00.10.08"%string, V_VP9); ("vp8"%string, V_VP8)].

(** Lines 208-210 and 216. *)
Definition query_bitrate : num :=
  let canvasRate := ndiv (nmul (of_Z canvasHeight) (of_Z canvasWidth)) (of_Z 4) in
  let bitrate := nadd (nmul canvasRate (ndiv targetFps (of_Z 15))) (of_Z 200000) in
  nmin bitrate (of_Z 2000000).

(** The argument of [isConfigSupported] for one candidate. *)
Definition query_for (candidate : string) : VideoEncoderConfig :=
  {| codec := candidate; height := canvasHeight; width := canvasWidth;
     bitrateMode := VariableBitrate; bitrate := query_bitrate;
     framerate := targetFps |}.

(** The loop of lines 206-224 over the remaining candidates, with the queries
    it sends, in order; an exception of the query is swallowed by the empty
    [catch]. *)
Fixpoint try_codecs (candidates : list (string * WebmCodec))
  : list VideoEncoderConfig * Outcome EncoderConfig :=
  match candidates with
  | [] => ([], Throws "No supported codecs found")
  | (candidate, tag) :: rest =>
      let query := query_for candidate in
      let continue := let (queries, result) := try_codecs rest in (query :: queries, result) in
      match isConfigSupported query with
      | Returns support =>
          if supported support
          then ([query], Returns {| webmCodec := tag; negotiated := config support |})
          else continue
      | Throws _ => continue
      end
  end.

Definition findSupportedEncoder : list VideoEncoderConfig * Outcome EncoderConfig :=
  try_codecs codecs.

(** The platform reports support for a candidate. *)
Definition reports_support (candidate : string) : bool :=
  match isConfigSupported (query_for candidate) with
  | Returns support => supported support
  | Throws _ => false
  end.

End CodecNegotiation.

Arguments VideoEncoderConfig : clear implicits.
Arguments VideoEncoderSupport : clear implicits.
Arguments EncoderConfig : clear implicits.

(** ** The overlay painted by [create2dFrame] *)

(** What ends up on the recording canvas, with the drawing state that was
    in force when it was painted. *)
Inductive Paint :=
| PaintImage (x y : Z)
| PaintRect (style : string) (x y w h : Z)
| PaintText (style align fontSpec content : string) (x y : Z).

(** The part of a [CanvasRenderingContext2D] that [create2dFrame] touches. *)
Record Context2d := {
  fillStyle : string;
  textAlign : string;
  font : string;
  painted : list Paint;
}.

Definition set_fillStyle (style : string) (c : Context2d) : Context2d :=
  {| fillStyle := style; textAlign := textAlign c; font := font c; painted := painted c |}.

Definition set_textAlign (align : string) (c : Context2d) : Context2d :=
  {| fillStyle := fillStyle c; textAlign := align; font := font c; painted := painted c |}.

Definition set_font (fontSpec : string) (c : Context2d) : Context2d :=
  {| fillStyle := fillStyle c; textAlign := textAlign c; font := fontSpec;
     painted := painted c |}.

Definition paint (what : Paint) (c : Context2d) : Context2d :=
  {| fillStyle := fillStyle c; textAlign := textAlign c; font := font c;
     painted := painted c ++ [what] |}.

Definition drawImage (x y : Z) (c : Context2d) : Context2d := paint (PaintImage x y) c.

Definition fillRect (x y w h : Z) (c : Context2d) : Context2d :=
  paint (PaintRect (fillStyle c) x y w h) c.

Definition fillText (content : string) (x y : Z) (c : Context2d) : Context2d :=
  paint (PaintText (fillStyle c) (textAlign c) (font c) content x y) c.

(** An integer inside a template literal. *)
Definition decimal (z : Z) : string := DecimalString.NilZero.string_of_int (Z.to_int z).

(** [const scale = recordingCanvas.width > 2000 ? 2 : 1] *)
Definition overlay_scale (canvasWidth : Z) : Z := if canvasWidth >? 2000 then 2 else 1.

(** [`700 ${size}px ${this.fontFamily}`] *)
Definition font_spec (size : Z) (fontFamily : string) : string :=
  ("700 " ++ decimal size ++ "px " ++ fontFamily)%string.

(** Lines 84-103, on a recording canvas [canvasWidth] pixels wide. *)
Definition create2dFrame_paint (canvasWidth : Z) (fontFamily date : string)
  (ctx2d : Context2d) : Context2d :=
  let scale := overlay_scale canvasWidth in
  let c1 := drawImage 0 0 ctx2d in
  let c2 := set_fillStyle "#20272c" c1 in
  let c3 := fillRect (canvasWidth - 130 * scale) 0 (130 * scale) (50 * scale) c2 in
  let c4 := set_fillStyle "#ffffff" c3 in
  let c5 := set_textAlign "right" c4 in
  let c6 := set_font (font_spec (12 * scale) fontFamily) c5 in
  let c7 := fillText "PDX.TOOLS" (canvasWidth - 11 * scale) (15 * scale) c6 in
  let c8 := set_font (font_spec (20 * scale) fontFamily) c7 in
  fillText date (canvasWidth - 10 * scale) (35 * scale) c8.

(** ** The factory [TimelapseEncoder.create] and the constructor *)

Section Create.

Context {num : Type} {number : Number num}.

(** What the constructor sets up: the fields of the instance, the muxer's
    video track and the configuration handed to [encoder.configure]. *)
Record TimelapseEncoder := {
  state : Pipeline num;
  options : TimelapseEncoderOptions num;
  fontFamily : string;
  muxerCodec : WebmCodec;
  muxerWidth : Z;
  muxerHeight : Z;
  configured : EncoderConfig num;
}.

(** Lines 53-81, for a context on a canvas of the given size. *)
Definition construct (config : EncoderConfig num) (ctxWidth ctxHeight : Z)
  (bodyFont : string) (opts : TimelapseEncoderOptions num) : TimelapseEncoder :=
  {| state := new_pipeline; options := opts; fontFamily := bodyFont;
     muxerCodec := webmCodec config; muxerWidth := ctxWidth; muxerHeight := ctxHeight;
     configured := config |}.

(** Lines 229-256.  The recording canvas takes the size of the map's canvas;
    [contextAvailable] tells whether [getContext("2d", ...)] returns a
    context rather than [null]. *)
Definition create
  (isConfigSupported : VideoEncoderConfig num -> Outcome (VideoEncoderSupport num))
  (mapWidth mapHeight : Z) (contextAvailable : bool) (bodyFont : string)
  (opts : TimelapseEncoderOptions num) : Outcome TimelapseEncoder :=
  match snd (findSupportedEncoder isConfigSupported mapWidth mapHeight (fps opts)) with
  | Throws message => Throws message
  | Returns config =>
      if contextAvailable
      then Returns (construct config mapWidth mapHeight bodyFont opts)
      else Throws "expected recording canvas 2d contex to be defined"
  end.

End Create.

Arguments TimelapseEncoder : clear implicits.

(** ** The worker's [eu4MapColors] *)

(** [ToIntegerOrInfinity] of a finite number: truncation towards zero. *)
Definition to_integer (q : Q) : Z := Z.quot (Qnum q) (Zpos (Qden q)).

(** How [subarray] places an index argument inside an array of [len]
    elements: negative values count from the end, everything is clamped. *)
Definition relative_index (len : Z) (q : Q) : Z :=
  let i := to_integer q in
  if i <? 0 then Z.max (len + i) 0 else Z.min i len.

(** [arr.subarray(begin, end)]; [end_ = None] when the argument is omitted. *)
Definition subarray (arr : list Byte.byte) (begin : Q) (end_ : option Q) : list Byte.byte :=
  let len := Z.of_nat (List.length arr) in
  let b := relative_index len begin in
  let e := match end_ with Some q => relative_index len q | None => len end in
  firstn (Z.to_nat (Z.max (e - b) 0)) (skipn (Z.to_nat b) arr).

(** The fields of [MapPayload] that [eu4MapColors] reads. *)
Record MapPayload := {
  kind : string;
  date : option Z;
}.

Record MapColors := {
  primary : list Byte.byte;
  secondary : list Byte.byte;
  country : option (list Byte.byte);
}.

Section MapColorsOfSave.

(** [wasm.save.map_colors], answered by the parsed save. *)
Variable map_colors : MapPayload -> list Byte.byte.

Definition eu4MapColors (payload : MapPayload) : MapColors :=
  let arr := map_colors payload in
  let length := inject_Z (Z.of_nat (List.length arr)) in
  if (kind payload =? "political")%string then
    let primary := subarray arr 0 (Some (length / 2)%Q) in
    let secondary := subarray arr (length / 2)%Q None in
    let country := primary in
    {| primary := primary; secondary := secondary; country := Some country |}
  else if (kind payload =? "battles")%string then
    let primary := subarray arr 0 (Some (length / 3)%Q) in
    let secondary := subarray arr (length / 3)%Q (Some (length * 2 / 3)%Q) in
    let country := subarray arr (length * 2 / 3)%Q None in
    {| primary := primary; secondary := secondary; country := Some country |}
  else if match date payload with Some _ => true | None => false end
          && (kind payload =? "religion")%string then
    let primary := subarray arr 0 (Some (length / 3)%Q) in
    let secondary := subarray arr (length / 3)%Q (Some (length * 2 / 3)%Q) in
    let country := subarray arr (length * 2 / 3)%Q None in
    {| primary := primary; secondary := secondary; country := Some country |}
  else
    let primary := subarray arr 0 (Some (length / 2)%Q) in
    let secondary := subarray arr (length / 2)%Q None in
    {| primary := primary; secondary := secondary; country := None |}.

End MapColorsOfSave.

(** ** Invariants of the pipeline *)

Section Invariants.

Context {num : Type} {number : Number num}.

(** The counter equals the number of [encode] calls made so far, and the
    [k]-th call (counting from 1) is a key frame exactly when 150 divides [k]. *)
Definition cadence_ok (p : Pipeline num) : Prop :=
  frameCount p = Z.of_nat (List.length (submitted p))
  /\ forall k call, nth_error (submitted p) k = Some call ->
       keyFrame call = (Z.of_nat (S k) mod 150 =? 0).

(** The timestamp reached from 0 by [n] additions of [duration]. *)
Definition ticks (duration : num) (n : nat) : num :=
  Nat.iter n (fun t => nadd t duration) (of_Z 0).

(** Every submitted frame is stamped with as many frame durations as frames
    were submitted before it, and the cursor (or, during the freeze frame, the
    loop variable) is where the next frame's stamp has to be. *)
Definition timestamps_ok (opts : TimelapseEncoderOptions num) (m : Machine num) : Prop :=
  let p := pipe m in
  let n := List.length (submitted p) in
  let duration := frameDuration opts in
  (forall k call, nth_error (submitted p) k = Some call ->
     f_timestamp (frame call) = ticks duration k /\ f_duration (frame call) = duration)
  /\ match ctl m with
     | Created | AwaitColors _ => timestamp p = ticks duration n
     | AwaitFlush _ => exists n', n = S n' /\ timestamp p = ticks duration n'
     | AwaitFreezeFlush date t =>
         (exists n', n = S n' /\ t = ticks duration n') /\ days (endDate opts) <= days date
     | Yielded date | AwaitIncrement date =>
         timestamp p = ticks duration n \/ days (endDate opts) <= days date
     | Returned | Thrown _ => True
     end.

(** What the monotonicity of the cursor needs of the order: zero is
    non-negative, adding a non-negative duration to a non-negative timestamp
    does not decrease it, and a million divided by a positive rate is
    non-negative. *)
Definition order_laws : Prop :=
  nleb (of_Z 0) (of_Z 0) = true
  /\ (forall x, nleb (of_Z 0) x = true -> nleb x x = true)
  /\ (forall x d, nleb (of_Z 0) x = true -> nleb (of_Z 0) d = true ->
        nleb x (nadd x d) = true /\ nleb (of_Z 0) (nadd x d) = true)
  /\ (forall f, nltb (of_Z 0) f = true -> nleb (of_Z 0) (ndiv (of_Z 1000000) f) = true).

(** The generator will not submit anything any more: it has completed, or it
    is suspended between two dates with an error captured or a stop
    requested, which the next check turns into completion. *)
Definition winding_down (m : Machine num) : bool :=
  completed (ctl m)
  || (between_dates (ctl m)
      && (match error (pipe m) with Some _ => true | None => false end
          || stopRequested (pipe m))).


End Invariants.

(** ** Further invariants of the date sequencer and of the frames *)

(** Consecutive [days] strictly increase. *)
Fixpoint days_increasing (l : list MapDate) : Prop :=
  match l with
  | a :: (b :: _) as rest => days a < days b /\ days_increasing rest
  | _ => True
  end.

Section FrameInvariants.

Context {num : Type} {number : Number num}.

(** The canvas content a call was made with. *)
Definition image (call : EncodeCall num) : option MapDate := f_image (frame call).

(** The generator is suspended on [await this.encoder.flush()]. *)
Definition awaiting_flush (c : Control num) : bool :=
  match c with
  | AwaitFlush _ | AwaitFreezeFlush _ _ => true
  | _ => false
  end.

(** The date whose frames are being produced. *)
Definition date_in_progress (c : Control num) : option MapDate :=
  match c with
  | AwaitColors d | AwaitFlush d | AwaitFreezeFlush d _ => Some d
  | _ => None
  end.

(** The date the generator last took from the sequencer. *)
Definition current_date (c : Control num) : option MapDate :=
  match c with
  | AwaitColors d | AwaitFlush d | AwaitFreezeFlush d _ | Yielded d | AwaitIncrement d =>
      Some d
  | _ => None
  end.

(** One frame in flight at most: while a flush is awaited the encoder's queue
    holds exactly the frame just submitted, painted for the date in progress,
    and otherwise it is empty; the muxer holds all other frames, in the order
    of submission. *)
Definition one_in_flight (m : Machine num) : Prop :=
  muxer (pipe m) ++ pending (pipe m) = submitted (pipe m)
  /\ match ctl m with
     | AwaitFlush d | AwaitFreezeFlush d _ =>
         canvas (pipe m) = Some d
         /\ exists call, pending (pipe m) = [call] /\ image call = Some d
     | _ => pending (pipe m) = []
     end.

(** Every frame shows a date, none later than the date the generator holds,
    and along the calls the day shown never decreases. *)
Definition in_date_order (m : Machine num) : Prop :=
  let calls := submitted (pipe m) in
  (forall i j a b, (i <= j)%nat ->
     nth_error calls i = Some a -> nth_error calls j = Some b ->
     exists da db, image a = Some da /\ image b = Some db /\ days da <= days db)
  /\ match ctl m with
     | Created => calls = []
     | Returned | Thrown _ => True
     | AwaitColors d | Yielded d | AwaitIncrement d =>
         forall call, In call calls -> exists dc, image call = Some dc /\ days dc <= days d
     | AwaitFlush d | AwaitFreezeFlush d _ =>
         canvas (pipe m) = Some d
         /\ forall call, In call calls -> exists dc, image call = Some dc /\ days dc <= days d
     end.

(** A stop was requested while [d] was in progress and [base] had been
    submitted: what was submitted since shows [d], and the generator is
    either still busy with [d] or about to complete. *)
Definition finishing_date (d : MapDate) (base : list (EncodeCall num)) (m : Machine num)
  : Prop :=
  stopRequested (pipe m) = true
  /\ (exists extra, submitted (pipe m) = base ++ extra
                   /\ Forall (fun call => image call = Some d) extra)
  /\ (winding_down m = true
      \/ ctl m = AwaitColors d
      \/ (canvas (pipe m) = Some d /\ awaiting_flush (ctl m) = true
          /\ date_in_progress (ctl m) = Some d)).

End FrameInvariants.

Section Tracking.

Context {num : Type} {number : Number num}.
Variable eu4IncrementDate : Z -> DateInterval -> MapDate.
Variable opts : TimelapseEncoderOptions num.

(** After [d], the sequencer goes on to emit [todo] and then ends. *)
Definition rest_of (d : MapDate) (todo : list MapDate) : Prop :=
  exists fuel,
    dates_from eu4IncrementDate (endDate opts) (interval opts) fuel d = Some (d :: todo).

(** Where an undisturbed run stands in the list [l] of dates the sequencer
    emits: the dates [seen] have their stepped frame, [todo] are still to
    come, and [r] freeze-frame repeats of the last date have been submitted. *)
Definition tracks (l : list MapDate) (m : Machine num) : Prop :=
  error (pipe m) = None
  /\ stopRequested (pipe m) = false
  /\ exists seen todo r,
       l = seen ++ todo
       /\ map image (submitted (pipe m))
          = map Some seen ++ repeat (Some (last l (startDate opts))) r
       /\ (todo <> [] -> r = 0%nat)
       /\ match ctl m with
          | Created =>
              seen = [] /\ exists todo', todo = startDate opts :: todo'
                                         /\ rest_of (startDate opts) todo'
          | AwaitColors d => exists todo', todo = d :: todo' /\ rest_of d todo'
          | AwaitFlush d =>
              r = 0%nat /\ canvas (pipe m) = Some d
              /\ rest_of d todo /\ exists seen', seen = seen' ++ [d]
          | AwaitFreezeFlush d _ =>
              todo = [] /\ canvas (pipe m) = Some d /\ d = last l (startDate opts)
              /\ rest_of d todo /\ exists seen', seen = seen' ++ [d]
          | Yielded d | AwaitIncrement d =>
              rest_of d todo /\ exists seen', seen = seen' ++ [d]
          | Returned => todo = []
          | Thrown _ => False
          end.

End Tracking.

(** ** Concrete runs *)

(** The caller keeps pulling and nothing interferes: [n] resumptions. *)
Definition drive {num : Type} {number : Number num}
  (eu4IncrementDate : Z -> DateInterval -> MapDate)
  (opts : TimelapseEncoderOptions num) (n : nat) (m : Machine num) : Machine num :=
  run eu4IncrementDate opts (repeat Resume n) m.

(** A single date (start = end) at 15 frames per second with a freeze frame
    of one second, in binary64. *)
Definition single_date_15fps : TimelapseEncoderOptions float :=
  {| fps := of_Z 15; interval := Year; startDate := mkdate 0; endDate := mkdate 0;
     freezeFrame := of_Z 1 |}.

(** The same single date, frame rate and freeze frame in exact arithmetic. *)
Definition single_date_15fps_exact : TimelapseEncoderOptions Q :=
  {| fps := of_Z 15; interval := Year; startDate := mkdate 0; endDate := mkdate 0;
     freezeFrame := of_Z 1 |}.

(** Two hundred and one daily dates at 30 frames per second, no freeze frame,
    in binary64. *)
Definition daily_200 : TimelapseEncoderOptions float :=
  {| fps := of_Z 30; interval := Day; startDate := mkdate 0; endDate := mkdate 200;
     freezeFrame := of_Z 0 |}.

(** A single date at one frame per second with a freeze frame of two seconds,
    in binary64. *)
Definition single_date_1fps : TimelapseEncoderOptions float :=
  {| fps := of_Z 1; interval := Year; startDate := mkdate 0; endDate := mkdate 0;
     freezeFrame := of_Z 2 |}.

(** Three weekly dates at 25 frames per second with a freeze frame of one
    second, in exact arithmetic. *)
Definition weekly_exact : TimelapseEncoderOptions Q :=
  {| fps := of_Z 25; interval := Week; startDate := mkdate 0; endDate := mkdate 14;
     freezeFrame := of_Z 1 |}.

(** The caller keeps pulling from the generator on the platform's encoder. *)
Definition platform_drive {num : Type} {number : Number num}
  (eu4IncrementDate : Z -> DateInterval -> MapDate)
  (opts : TimelapseEncoderOptions num) (n : nat) (m : Machine num) : Machine num :=
  platform_run eu4IncrementDate opts (repeat Resume n) m.

(** A platform that supports exactly the codecs named in [known] and answers
    with the configuration it was asked about. *)
Definition platform_with {num : Type} {number : Number num} (known : list string)
  (query : VideoEncoderConfig num) : Outcome (VideoEncoderSupport num) :=
  Returns {| supported := existsb (String.eqb (codec query)) known; config := query |}.

(** Seven bytes, a length that is neither even nor a multiple of three. *)
Definition seven_bytes : list Byte.byte :=
  [Byte.x01; Byte.x02; Byte.x03; Byte.x04; Byte.x05; Byte.x06; Byte.x07].

Definition battles_payload : MapPayload := {| kind := "battles"; date := None |}.

Definition undated_religion_payload : MapPayload := {| kind := "religion"; date := None |}.

(** * Properties *)

(** ** The date sequencer *)

Section DatesFacts.

Variable eu4IncrementDate : Z -> DateInterval -> MapDate.
Variables (end_ : MapDate) (step : DateInterval).

(** The engine moves forward: the incremented date is later than the one asked
    about. *)
Hypothesis increment_advances : forall d, d < days (eu4IncrementDate d step).

Local Abbreviation resume := (dates_resume eu4IncrementDate end_ step).
Local Abbreviation from := (dates_from eu4IncrementDate end_ step).

Lemma last_cons_default (A : Type) (l : list A) : forall a d,
  last (a :: l) d = last l a.
Proof.
  induction l as [| b l IH]; intros a d; [reflexivity |].
  change (last (a :: b :: l) d) with (last (b :: l) d).
  rewrite !IH. reflexivity.
Qed.

Lemma dates_resume_last (current : MapDate) :
  days end_ <= days current -> resume current = None.
Proof.
  intros Hge. unfold dates_resume.
  destruct (Z.geb_spec (days current) (days end_)) as [_ | Hlt]; [reflexivity | lia].
Qed.

Lemma dates_resume_next (current : MapDate) :
  days current < days end_ ->
  exists next, resume current = Some next /\ days current < days next <= days end_.
Proof.
  intros Hlt. unfold dates_resume.
  destruct (Z.geb_spec (days current) (days end_)) as [Hge | _]; [lia |].
  pose proof (increment_advances (days current)) as Hadv.
  destruct (Z.gtb_spec (days (eu4IncrementDate (days current) step)) (days end_)).
  - exists end_. split; [reflexivity | lia].
  - eexists. split; [reflexivity | lia].
Qed.

Lemma dates_from_complete (fuel : nat) : forall current,
  days current <= days end_ ->
  (Z.to_nat (days end_ - days current) < fuel)%nat ->
  exists rest,
    from fuel current = Some (current :: rest)
    /\ days (last rest current) = days end_
    /\ days_nondecreasing (current :: rest)
    /\ (days current = days end_ -> rest = []).
Proof.
  induction fuel as [| fuel IH]; intros current Hle Hfuel; [lia |].
  destruct (Z.eq_dec (days current) (days end_)) as [Heq | Hne].
  - exists []. simpl. rewrite dates_resume_last by lia. simpl. auto.
  - destruct (@dates_resume_next current) as (next & Hnext & Hlo & Hhi); [lia |].
    destruct (IH next) as (rest & Hrun & Hlast & Hsorted & _); [lia | lia |].
    exists (next :: rest). simpl from. rewrite Hnext, Hrun.
    repeat split.
    + rewrite last_cons_default. exact Hlast.
    + lia.
    + exact Hsorted.
    + intros Heq. contradiction.
Qed.

End DatesFacts.

(** C1. When [start.days <= end.days] (and the engine's increment moves
    forward, so that the loop ends), [dates] driven to completion yields a
    non-empty sequence that begins with [start], ends on a date equal to [end]
    (dates are compared by [days]) and whose [days] never decrease; when
    [start.days = end.days] it yields [start] alone. *)
Theorem dates_first_last_ordered
  (eu4IncrementDate : Z -> DateInterval -> MapDate)
  (start end_ : MapDate) (step : DateInterval) (fuel : nat) :
  (forall d, d < days (eu4IncrementDate d step)) ->
  days start <= days end_ ->
  (Z.to_nat (days end_ - days start) < fuel)%nat ->
  exists l,
    dates eu4IncrementDate start end_ step fuel = Some l
    /\ l <> []
    /\ hd_error l = Some start
    /\ days (last l start) = days end_
    /\ days_nondecreasing l
    /\ (days start = days end_ -> l = [start]).
Proof.
  intros Hadv Hle Hfuel.
  destruct (@dates_from_complete eu4IncrementDate end_ step Hadv fuel start Hle Hfuel)
    as (rest & Hrun & Hlast & Hsorted & Hone).
  exists (start :: rest). unfold dates.
  repeat split; try assumption.
  - discriminate.
  - rewrite last_cons_default. exact Hlast.
  - intros Heq. now rewrite (Hone Heq).
Qed.

Lemma dates_first_last_ordered_witness :
  exists l,
    dates fixed_step_engine (mkdate 0) (mkdate 100) Month 101 = Some l
    /\ hd_error l = Some (mkdate 0)
    /\ days (last l (mkdate 0)) = 100
    /\ days_nondecreasing l.
Proof.
  destruct (@dates_first_last_ordered fixed_step_engine (mkdate 0) (mkdate 100) Month 101)
    as (l & Hrun & _ & Hfirst & Hlast & Hsorted & _).
  - intros d. simpl. lia.
  - simpl. lia.
  - simpl. lia.
  - exists l. repeat split; assumption.
Defined.

(** C9. When [start.days > end.days], [dates] yields exactly one element,
    [start] itself, whatever the engine answers and whatever the interval. *)
Theorem dates_inverted_range
  (eu4IncrementDate : Z -> DateInterval -> MapDate)
  (start end_ : MapDate) (step : DateInterval) (fuel : nat) :
  days start > days end_ ->
  dates eu4IncrementDate start end_ step (S fuel) = Some [start].
Proof.
  intros Hgt. unfold dates, dates_from, dates_resume.
  destruct (Z.geb_spec (days start) (days end_)) as [_ | Hlt]; [reflexivity | lia].
Qed.

Lemma dates_inverted_range_witness :
  dates fixed_step_engine (mkdate 9) (mkdate 3) Year 1 = Some [mkdate 9].
Proof.
  apply (@dates_inverted_range fixed_step_engine (mkdate 9) (mkdate 3) Year 0).
  simpl. lia.
Defined.

(** ** Number of frames of a complete run *)

(** C3. In binary64 the freeze-frame loop can run once more than
    [freezeFrame * fps] times: for a single date at 15 frames per second and a
    one-second freeze frame the complete run submits 17 frames, where
    [N + freezeFrame * fps] is 1 + 15 = 16.  The loop variable reaches
    1066666.6666666665 after 15 additions of 1000000/15, just below the bound
    66666.66666666667 + 1000000. *)
Theorem freeze_frames_one_too_many :
  let m := drive fixed_step_engine single_date_15fps 40 created in
  dates fixed_step_engine (startDate single_date_15fps) (endDate single_date_15fps)
        (interval single_date_15fps) 1 = Some [mkdate 0]
  /\ nmul (freezeFrame single_date_15fps) (fps single_date_15fps) = of_Z 15
  /\ ctl m = Returned
  /\ error (pipe m) = None
  /\ List.length (submitted (pipe m)) = 17%nat.
Proof.
  vm_compute. repeat split; reflexivity.
Qed.

(** With exact rationals the same run submits the 16 frames one expects: the
    extra frame comes from rounding alone. *)
Lemma freeze_frames_exact_arithmetic :
  let m := drive fixed_step_engine single_date_15fps_exact 40 created in
  ctl m = Returned /\ List.length (submitted (pipe m)) = 16%nat.
Proof.
  vm_compute. split; reflexivity.
Qed.

(** *** The same count in exact arithmetic

    Over the rationals the loop variable of the freeze frame is exactly
    [j] frame durations past the cursor after [j] repeats, so the test of the
    loop fails for the first time at [j = freezeFrame * fps]. *)

Section ExactCount.

Variable eu4IncrementDate : Z -> DateInterval -> MapDate.
Variable opts : TimelapseEncoderOptions Q.
Variable K : nat.

Hypothesis positive_rate : (0 < fps opts)%Q.
Hypothesis whole_repeats : (freezeFrame opts * fps opts == inject_Z (Z.of_nat K))%Q.

Local Abbreviation step' := (step eu4IncrementDate opts).
Local Abbreviation drive' := (drive eu4IncrementDate opts).
Local Abbreviation duration := (frameDuration opts).

Lemma drive_succ (n : nat) (m : Machine Q) : drive' (S n) m = drive' n (step' m).
Proof. reflexivity. Qed.

Lemma drive_add (a b : nat) (m : Machine Q) : drive' (a + b) m = drive' b (drive' a m).
Proof.
  unfold drive, run. rewrite repeat_app, fold_left_app. reflexivity.
Qed.

Lemma freeze_test (j : nat) (t cursor : Q) :
  (t == cursor + inject_Z (Z.of_nat j) * duration)%Q ->
  nltb t (nadd cursor (nmul (freezeFrame opts) (of_Z 1000000))) = (j <? K)%nat.
Proof.
  intros Ht. cbn [nltb nadd nmul of_Z Number_Q].
  assert (Hd : (duration * fps opts == 1000000)%Q).
  { unfold frameDuration. cbn [ndiv of_Z Number_Q]. field. lra. }
  assert (Hpos : (0 < duration)%Q).
  { unfold frameDuration. cbn [ndiv of_Z Number_Q]. unfold Qdiv.
    apply Qmult_lt_0_compat; [reflexivity |]. now apply Qinv_lt_0_compat. }
  assert (Hhold : (freezeFrame opts * inject_Z 1000000
                   == inject_Z (Z.of_nat K) * duration)%Q).
  { change (inject_Z 1000000) with 1000000%Q. rewrite <- Hd, <- whole_repeats. ring. }
  destruct (Nat.ltb_spec j K) as [Hlt | Hge].
  - apply negb_true_iff. destruct (Qle_bool _ t) eqn:Hle; [| reflexivity].
    exfalso. apply Qle_bool_iff in Hle. rewrite Ht, Hhold in Hle.
    assert (Hjk : (inject_Z (Z.of_nat j) + 1 <= inject_Z (Z.of_nat K))%Q).
    { change 1%Q with (inject_Z 1). rewrite <- inject_Z_plus, <- Zle_Qle. lia. }
    nra.
  - apply negb_false_iff, Qle_bool_iff. rewrite Ht, Hhold.
    assert (Hkj : (inject_Z (Z.of_nat K) <= inject_Z (Z.of_nat j))%Q).
    { rewrite <- Zle_Qle. lia. }
    nra.
Qed.

(** The freeze frame: [r] repeats are still due when the loop variable is
    [j] durations past the cursor and [j + r = freezeFrame * fps]. *)
Lemma freeze_loop (date : MapDate) (r : nat) : forall (j : nat) (t : Q) (p : Pipeline Q),
  (j + r = K)%nat ->
  (t == timestamp p + inject_Z (Z.of_nat j) * duration)%Q ->
  exists p',
    drive' r (freeze_iteration opts date t p) = {| pipe := p'; ctl := Yielded date |}
    /\ List.length (submitted p') = (List.length (submitted p) + r)%nat
    /\ error p' = error p /\ stopRequested p' = stopRequested p.
Proof.
  induction r as [| r IH]; intros j t p Hjr Ht.
  - exists p. unfold freeze_iteration. rewrite (freeze_test j Ht).
    replace (j <? K)%nat with false by (symmetry; apply Nat.ltb_ge; lia).
    repeat split. lia.
  - unfold freeze_iteration at 1. rewrite (freeze_test j Ht).
    replace (j <? K)%nat with true by (symmetry; apply Nat.ltb_lt; lia).
    rewrite drive_succ. unfold step at 1. cbn [pipe ctl].
    destruct (IH (S j) (nadd t duration) (flushed (encode t duration p)))
      as (p' & Hrun & Hlen & Herr & Hstop).
    + lia.
    + cbn [nadd Number_Q flushed encode timestamp]. rewrite Ht.
      rewrite Nat2Z.inj_succ. unfold Z.succ. rewrite inject_Z_plus. ring.
    + exists p'. split; [exact Hrun |].
      cbn [flushed encode submitted error stopRequested] in Hlen, Herr, Hstop.
      rewrite length_app in Hlen. cbn [List.length] in Hlen.
      repeat split; [lia | exact Herr | exact Hstop].
Qed.

(** From the request for the colours of [date] to the end of the run. *)
Lemma dates_loop (fuel : nat) : forall (date : MapDate) (l : list MapDate) (p : Pipeline Q),
  dates_from eu4IncrementDate (endDate opts) (interval opts) fuel date = Some l ->
  error p = None -> stopRequested p = false ->
  exists n p',
    drive' n {| pipe := p; ctl := AwaitColors date |} = {| pipe := p'; ctl := Returned |}
    /\ List.length (submitted p') = (List.length (submitted p) + List.length l + K)%nat.
Proof.
  induction fuel as [| fuel IH]; intros date l p Hrun Herr Hstop; [discriminate Hrun |].
  cbn [dates_from] in Hrun.
  destruct (dates_resume eu4IncrementDate (endDate opts) (interval opts) date)
    as [next |] eqn:Hresume.
  - destruct (dates_from eu4IncrementDate (endDate opts) (interval opts) fuel next)
      as [rest |] eqn:Hrest; [| discriminate Hrun].
    injection Hrun as <-.
    assert (Hfinal : (days date >=? days (endDate opts)) = false).
    { unfold dates_resume in Hresume.
      destruct (days date >=? days (endDate opts)); [discriminate Hresume | reflexivity]. }
    set (p1 := advance_timestamp duration
                 (flushed (encode (timestamp (create2dFrame date p)) duration
                             (create2dFrame date p)))).
    destruct (IH next rest p1 Hrest Herr Hstop) as (n & p' & Hdrive & Hlen).
    exists (4 + n)%nat, p'. split.
    + rewrite (drive_add 4 n). unfold drive at 2, run. cbn [repeat fold_left react].
      unfold step. cbn [pipe ctl]. rewrite Hfinal. cbn [pipe ctl]. rewrite Hresume.
      unfold visit. fold p1.
      replace (error p1) with (@None string) by (symmetry; exact Herr).
      replace (stopRequested p1) with false by (symmetry; exact Hstop).
      exact Hdrive.
    + rewrite Hlen. subst p1.
      cbn [advance_timestamp flushed encode create2dFrame submitted].
      rewrite length_app. cbn [List.length]. lia.
  - injection Hrun as <-.
    assert (Hfinal : (days date >=? days (endDate opts)) = true).
    { unfold dates_resume in Hresume.
      destruct (days date >=? days (endDate opts)); [reflexivity |].
      destruct (_ >? _); discriminate Hresume. }
    set (p1 := advance_timestamp duration
                 (flushed (encode (timestamp (create2dFrame date p)) duration
                             (create2dFrame date p)))).
    destruct (@freeze_loop date K 0%nat (timestamp p1) p1) as (p' & Hdrive & Hlen & _ & _).
    + lia.
    + cbn [Z.of_nat]. change (inject_Z 0) with 0%Q. ring.
    + exists (2 + (K + 2))%nat, p'. split.
      * rewrite (drive_add 2 (K + 2)). unfold drive at 2, run. cbn [repeat fold_left react].
        unfold step. cbn [pipe ctl]. rewrite Hfinal. fold p1.
        rewrite (drive_add K 2), Hdrive.
        unfold drive, run. cbn [repeat fold_left react]. unfold step. cbn [pipe ctl].
        rewrite Hresume. reflexivity.
      * rewrite Hlen. subst p1.
        cbn [advance_timestamp flushed encode create2dFrame submitted].
        rewrite length_app. cbn [List.length]. lia.
Qed.

(** When the sequencer emits the dates [l] and [freezeFrame * fps] is the
    whole number [K], an undisturbed run in exact arithmetic completes with
    [length l + K] frames submitted. *)
Lemma frame_count_exact (fuel : nat) (l : list MapDate) :
  dates eu4IncrementDate (startDate opts) (endDate opts) (interval opts) fuel = Some l ->
  exists n,
    ctl (drive' n created) = Returned
    /\ List.length (submitted (pipe (drive' n created))) = (List.length l + K)%nat.
Proof.
  intros Hdates.
  destruct (@dates_loop fuel (startDate opts) l new_pipeline Hdates eq_refl eq_refl)
    as (n & p' & Hdrive & Hlen).
  exists (1 + n)%nat.
  rewrite (drive_add 1 n).
  change (drive' 1 created)
    with {| pipe := new_pipeline (num := Q); ctl := AwaitColors (startDate opts) |}.
  rewrite Hdrive. split; [reflexivity | exact Hlen].
Qed.

End ExactCount.

(** ** [stop] and [finish] *)

Section Lifecycle.

Context {num : Type} {number : Number num}.
Implicit Types p : Pipeline num.

(** C10. [stop()] returns normally, sets [stopRequested], is idempotent and
    leaves the timestamp, the frame counter, the captured error, the canvas,
    the encoder and the muxer as they were. *)
Theorem stop_sets_only_the_flag p :
  fst (stop p) = Returns tt
  /\ stopRequested (snd (stop p)) = true
  /\ snd (stop (snd (stop p))) = snd (stop p)
  /\ timestamp (snd (stop p)) = timestamp p
  /\ frameCount (snd (stop p)) = frameCount p
  /\ error (snd (stop p)) = error p
  /\ canvas (snd (stop p)) = canvas p
  /\ submitted (snd (stop p)) = submitted p
  /\ pending (snd (stop p)) = pending p
  /\ muxer (snd (stop p)) = muxer p
  /\ encoderClosed (snd (stop p)) = encoderClosed p.
Proof.
  destruct p. cbn. repeat split.
Qed.

(** C5, as the code has it.  [finish()] throws "empty muxer" when the
    muxer's finalization yields no data, before it reaches
    [this.encoder.close()]; when finalization yields data and the encoder is
    still open, [finish()] closes the encoder as its last step and returns
    the data.  The muxer the constructor builds yields data whatever it
    holds, so on an open encoder [finish()] always returns the container and
    closes the encoder; when no frame was ever encoded, that container holds
    the header alone: zero frames do not make [finish()] fail. *)
Theorem finish_outcomes (Buffer : Type)
  (finalize : list (EncodeCall num) -> option Buffer) p :
  match finalize (muxer p) with
  | None => finish finalize p = (Throws "empty muxer", p)
  | Some out =>
      encoder_open p ->
      finish finalize p = (Returns out, close_encoder p)
      /\ encoderClosed (snd (finish finalize p)) = true
  end
  /\ buffer_finalize (muxer p) = Some {| clusters := muxer p |}
  /\ (encoder_open p ->
      finish buffer_finalize p = (Returns {| clusters := muxer p |}, close_encoder p))
  /\ (encoder_open p -> muxer p = [] ->
      fst (finish buffer_finalize p) = Returns {| clusters := [] |}).
Proof.
  split; [| split; [reflexivity | split]].
  - unfold finish. destruct (finalize (muxer p)) as [out |]; [| reflexivity].
    intros _. split; reflexivity.
  - intros _. reflexivity.
  - intros _ Hempty. unfold finish, buffer_finalize. rewrite Hempty. reflexivity.
Qed.

End Lifecycle.

(** C5 fails on zero frames: on a fresh encoder, which never encoded a frame,
    [finish()] does not fail with "empty muxer" but returns the header-only
    container and closes the encoder. *)
Lemma finish_succeeds_on_zero_frames :
  let p := new_pipeline (num := float) in
  submitted p = []
  /\ finish buffer_finalize p = (Returns {| clusters := [] |}, close_encoder p)
  /\ fst (finish buffer_finalize p) <> Throws "empty muxer".
Proof.
  cbn. repeat split. discriminate.
Qed.

Lemma finish_outcomes_witness :
  let p := pipe (drive fixed_step_engine single_date_15fps 3 created) in
  List.length (muxer p) = 1%nat
  /\ finish buffer_finalize p = (Returns {| clusters := muxer p |}, close_encoder p).
Proof.
  intros p. split; [reflexivity |].
  apply (proj1 (proj2 (proj2 (finish_outcomes (@buffer_finalize float) p)))).
  split; reflexivity.
Defined.

(** ** Codec negotiation *)

Section NegotiationFacts.

Context {num : Type} {number : Number num}.
Variable isConfigSupported : VideoEncoderConfig num -> Outcome (VideoEncoderSupport num).
Variables (canvasWidth canvasHeight : Z) (targetFps : num).

Local Abbreviation query := (query_for canvasWidth canvasHeight targetFps).
Local Abbreviation reports := (reports_support isConfigSupported canvasWidth canvasHeight targetFps).
Local Abbreviation negotiate :=
  (findSupportedEncoder isConfigSupported canvasWidth canvasHeight targetFps).

Lemma reports_support_true (candidate : string) :
  reports candidate = true ->
  exists support,
    isConfigSupported (query candidate) = Returns support /\ supported support = true.
Proof.
  unfold reports_support.
  destruct (isConfigSupported (query candidate)) as [support | message]; [| discriminate].
  intros Hs. exists support. split; [reflexivity | exact Hs].
Qed.

Lemma try_codecs_supported (candidate : string) (tag : WebmCodec) rest support :
  isConfigSupported (query candidate) = Returns support ->
  supported support = true ->
  try_codecs isConfigSupported canvasWidth canvasHeight targetFps ((candidate, tag) :: rest)
  = ([query candidate], Returns {| webmCodec := tag; negotiated := config support |}).
Proof.
  intros Hq Hs. cbn [try_codecs]. rewrite Hq, Hs. reflexivity.
Qed.

Lemma try_codecs_unsupported (candidate : string) (tag : WebmCodec) rest :
  reports candidate = false ->
  try_codecs isConfigSupported canvasWidth canvasHeight targetFps ((candidate, tag) :: rest)
  = (query candidate
       :: fst (try_codecs isConfigSupported canvasWidth canvasHeight targetFps rest),
     snd (try_codecs isConfigSupported canvasWidth canvasHeight targetFps rest)).
Proof.
  unfold reports_support. intros Hr. cbn [try_codecs].
  destruct (try_codecs isConfigSupported canvasWidth canvasHeight targetFps rest)
    as [queries result].
  destruct (isConfigSupported (query candidate)) as [support | message]; [| reflexivity].
  rewrite Hr. reflexivity.
Qed.

End NegotiationFacts.

(** C6. Every capability query carries the candidate's codec string, the
    canvas size, the frame rate, variable bitrate mode and the bitrate
    [min(width*height/4 * (fps/15) + 200_000, 2_000_000)].  The vp9 candidate
    is asked first and wins when the platform reports support for it; vp8 is
    asked, and can win, only when vp9 was not reported as supported; when
    neither is, negotiation throws "No supported codecs found". *)
Theorem negotiation_prefers_vp9 {num : Type} {number : Number num}
  (isConfigSupported : VideoEncoderConfig num -> Outcome (VideoEncoderSupport num))
  (canvasWidth canvasHeight : Z) (targetFps : num) :
  let query := query_for canvasWidth canvasHeight targetFps in
  let reports := reports_support isConfigSupported canvasWidth canvasHeight targetFps in
  let outcome := findSupportedEncoder isConfigSupported canvasWidth canvasHeight targetFps in
  (forall candidate,
      codec (query candidate) = candidate
      /\ width (query candidate) = canvasWidth
      /\ height (query candidate) = canvasHeight
      /\ framerate (query candidate) = targetFps
      /\ bitrateMode (query candidate) = VariableBitrate
      /\ bitrate (query candidate)
         = nmin (nadd (nmul (ndiv (nmul (of_Z canvasHeight) (of_Z canvasWidth)) (of_Z 4))
                            (ndiv targetFps (of_Z 15)))
                      (of_Z 200000))
                (of_Z 2000000))
  /\ (reports "vp09.00.10.08"%string = true ->
      exists support,
        isConfigSupported (query "vp09.00.10.08"%string) = Returns support
        /\ outcome = ([query "vp09.00.10.08"%string],
                      Returns {| webmCodec := V_VP9; negotiated := config support |}))
  /\ (reports "vp09.00.10.08"%string = false -> reports "vp8"%string = true ->
      exists support,
        isConfigSupported (query "vp8"%string) = Returns support
        /\ outcome = ([query "vp09.00.10.08"%string; query "vp8"%string],
                      Returns {| webmCodec := V_VP8; negotiated := config support |}))
  /\ (reports "vp09.00.10.08"%string = false -> reports "vp8"%string = false ->
      outcome = ([query "vp09.00.10.08"%string; query "vp8"%string],
                 Throws "No supported codecs found"))
  /\ (forall chosen, snd outcome = Returns chosen -> webmCodec chosen = V_VP8 ->
      reports "vp09.00.10.08"%string = false).
Proof.
  intros query reports outcome.
  assert (Hvp9 : reports "vp09.00.10.08"%string = true ->
      exists support,
        isConfigSupported (query "vp09.00.10.08"%string) = Returns support
        /\ outcome = ([query "vp09.00.10.08"%string],
                      Returns {| webmCodec := V_VP9; negotiated := config support |})).
  { intros Hr. destruct (reports_support_true _ _ _ _ _ Hr) as (support & Hq & Hs).
    exists support. split; [exact Hq |].
    subst outcome. unfold findSupportedEncoder, codecs.
    now apply try_codecs_supported. }
  split; [| split; [exact Hvp9 | split; [| split]]].
  - intros candidate. repeat split.
  - intros Hno Hr. destruct (reports_support_true _ _ _ _ _ Hr) as (support & Hq & Hs).
    exists support. split; [exact Hq |].
    subst outcome. unfold findSupportedEncoder, codecs.
    rewrite try_codecs_unsupported by exact Hno.
    rewrite (try_codecs_supported _ _ _ _ _ V_VP8 [] Hq Hs). reflexivity.
  - intros Hno9 Hno8.
    subst outcome. unfold findSupportedEncoder, codecs.
    rewrite try_codecs_unsupported by exact Hno9.
    rewrite try_codecs_unsupported by exact Hno8. reflexivity.
  - intros chosen Hout Htag.
    destruct (reports "vp09.00.10.08"%string) eqn:Hr; [| reflexivity].
    destruct (Hvp9 eq_refl) as (support & _ & Heq).
    rewrite Heq in Hout. cbn in Hout. inversion Hout; subst chosen. discriminate.
Qed.

Lemma negotiation_prefers_vp9_witness :
  bitrate (query_for 1920 1080 (of_Z 30 : float) "vp8") = of_Z 1236800
  /\ snd (findSupportedEncoder (platform_with ["vp8"%string]) 1920 1080 (of_Z 30 : float))
     = Returns {| webmCodec := V_VP8;
                  negotiated := query_for 1920 1080 (of_Z 30) "vp8" |}
  /\ snd (findSupportedEncoder (platform_with ["vp09.00.10.08"%string; "vp8"%string])
            1920 1080 (of_Z 30 : float))
     = Returns {| webmCodec := V_VP9;
                  negotiated := query_for 1920 1080 (of_Z 30) "vp09.00.10.08" |}
  /\ snd (findSupportedEncoder (platform_with []) 1920 1080 (of_Z 30 : float))
     = Throws "No supported codecs found".
Proof.
  split; [vm_compute; reflexivity |].
  split; [| split].
  - destruct (proj1 (proj2 (proj2
      (negotiation_prefers_vp9 (platform_with ["vp8"%string]) 1920 1080 (of_Z 30 : float)))))
      as (support & Hq & Hout); [reflexivity | reflexivity |].
    rewrite Hout. cbn [snd]. inversion Hq. reflexivity.
  - destruct (proj1 (proj2
      (negotiation_prefers_vp9 (platform_with ["vp09.00.10.08"%string; "vp8"%string])
         1920 1080 (of_Z 30 : float))))
      as (support & Hq & Hout); [reflexivity |].
    rewrite Hout. cbn [snd]. inversion Hq. reflexivity.
  - rewrite (proj1 (proj2 (proj2 (proj2
      (negotiation_prefers_vp9 (platform_with []) 1920 1080 (of_Z 30 : float)))))
      eq_refl eq_refl).
    reflexivity.
Defined.

(** ** The [timelapse] machine *)

(** Splits a goal on every test the code makes on the way to the next
    suspension point. *)
Ltac branch :=
  repeat match goal with
    | |- context [if ?b then _ else _] => destruct b eqn:?
    | |- context [match ?x with Some _ => _ | None => _ end] => destruct x eqn:?
    end.

Ltac by_step m :=
  destruct m as [? []]; unfold step, visit, freeze_iteration; cbn [pipe ctl]; branch;
  cbn [pipe ctl].

Section Cadence.

Context {num : Type} {number : Number num}.
Variable eu4IncrementDate : Z -> DateInterval -> MapDate.
Variable opts : TimelapseEncoderOptions num.
Implicit Types (p : Pipeline num) (m : Machine num).

Local Abbreviation step' := (step eu4IncrementDate opts).
Local Abbreviation react' := (react eu4IncrementDate opts).
Local Abbreviation run' := (run eu4IncrementDate opts).

Lemma cadence_encode p (t duration : num) :
  cadence_ok p -> cadence_ok (encode t duration p).
Proof.
  intros [Hcount Hkey]. unfold cadence_ok, encode. cbn [frameCount submitted].
  rewrite length_app. cbn [List.length]. split; [lia |].
  intros k call Hk.
  destruct (Nat.lt_ge_cases k (List.length (submitted p))) as [Hlt | Hge].
  - rewrite nth_error_app1 in Hk by exact Hlt. now apply Hkey.
  - rewrite nth_error_app2 in Hk by exact Hge.
    destruct (k - List.length (submitted p))%nat as [| j] eqn:Hj.
    + cbn in Hk. injection Hk as <-. cbn [keyFrame].
      assert (Hk' : Z.of_nat (S k) = frameCount p + 1) by lia.
      rewrite Hk', Z.rem_mod_nonneg by lia. reflexivity.
    + destruct j; discriminate Hk.
Qed.

Lemma cadence_step m : cadence_ok (pipe m) -> cadence_ok (pipe (step' m)).
Proof.
  intros Hm. by_step m; cbn in Hm;
    try assumption; try (apply cadence_encode; exact Hm).
Qed.

Lemma cadence_react m e : cadence_ok (pipe m) -> cadence_ok (pipe (react' m e)).
Proof.
  destruct e; [apply cadence_step | |]; intros Hm; exact Hm.
Qed.

Lemma cadence_run events : forall m,
  cadence_ok (pipe m) -> cadence_ok (pipe (run' events m)).
Proof.
  induction events as [| e events IH]; intros m Hm; [exact Hm |].
  cbn. apply IH, cadence_react, Hm.
Qed.

(** An event makes at most one [encode] call, and the counter moves with it. *)
Lemma react_counts m e :
  exists calls,
    submitted (pipe (react' m e)) = submitted (pipe m) ++ calls
    /\ frameCount (pipe (react' m e)) = frameCount (pipe m) + Z.of_nat (List.length calls)
    /\ (List.length calls <= 1)%nat.
Proof.
  assert (Hnone : forall p' : Pipeline num,
    submitted p' = submitted (pipe m) -> frameCount p' = frameCount (pipe m) ->
    exists calls, submitted p' = submitted (pipe m) ++ calls
      /\ frameCount p' = frameCount (pipe m) + Z.of_nat (List.length calls)
      /\ (List.length calls <= 1)%nat).
  { intros p' Hs Hc. exists []. rewrite app_nil_r. cbn. repeat split; [exact Hs | lia | lia]. }
  destruct e; cbn [react]; try (apply Hnone; reflexivity).
  by_step m; try (apply Hnone; reflexivity);
    (eexists [_]; cbn; repeat split; lia).
Qed.

End Cadence.

(** C2. In every run (whatever the caller, the encoder's error callback and
    [stop()] do in between) the frame counter equals the number of [encode]
    calls made so far, so it grows by one per call and is never reset, and the
    [k]-th call (counting from 1, freeze-frame repeats included) is tagged as
    a key frame exactly when 150 divides [k]; a single event makes at most
    one call and moves the counter by just as much. *)
Theorem keyframe_cadence {num : Type} {number : Number num}
  (eu4IncrementDate : Z -> DateInterval -> MapDate)
  (opts : TimelapseEncoderOptions num) (events : list Event) :
  let p := pipe (run eu4IncrementDate opts events created) in
  frameCount p = Z.of_nat (List.length (submitted p))
  /\ (forall k call, nth_error (submitted p) k = Some call ->
        keyFrame call = (Z.of_nat (S k) mod 150 =? 0))
  /\ (forall e,
        let p' := pipe (react eu4IncrementDate opts
                          (run eu4IncrementDate opts events created) e) in
        exists calls,
          submitted p' = submitted p ++ calls
          /\ frameCount p' = frameCount p + Z.of_nat (List.length calls)
          /\ (List.length calls <= 1)%nat).
Proof.
  intros p.
  assert (H : cadence_ok p).
  { apply cadence_run. split; [reflexivity |]. intros [| k] call Hk; discriminate Hk. }
  destruct H as [Hcount Hkey].
  split; [exact Hcount | split; [exact Hkey |]].
  intros e. apply react_counts.
Qed.

Lemma keyframe_cadence_witness :
  exists call,
    nth_error (submitted (pipe (drive fixed_step_engine daily_200 700 created))) 149
      = Some call
    /\ keyFrame call = true.
Proof.
  eexists. split.
  - vm_compute. reflexivity.
  - apply (proj1 (proj2 (keyframe_cadence fixed_step_engine daily_200 (repeat Resume 700)))
             149%nat).
    vm_compute. reflexivity.
Defined.

(** ** The timestamp cursor *)

Section Timestamps.

Context {num : Type} {number : Number num}.
Variable eu4IncrementDate : Z -> DateInterval -> MapDate.
Variable opts : TimelapseEncoderOptions num.
Implicit Types (p : Pipeline num) (m : Machine num).

Local Abbreviation step' := (step eu4IncrementDate opts).
Local Abbreviation react' := (react eu4IncrementDate opts).
Local Abbreviation run' := (run eu4IncrementDate opts).
Local Abbreviation duration := (frameDuration opts).

Lemma nth_error_snoc (A : Type) (l : list A) (a b : A) (k : nat) :
  nth_error (l ++ [a]) k = Some b ->
  nth_error l k = Some b \/ (k = List.length l /\ b = a).
Proof.
  intros Hk.
  destruct (Nat.lt_ge_cases k (List.length l)) as [Hlt | Hge].
  - left. now rewrite nth_error_app1 in Hk.
  - right. rewrite nth_error_app2 in Hk by exact Hge.
    destruct (k - List.length l)%nat as [| [| j]] eqn:Hj; try discriminate Hk.
    cbn in Hk. injection Hk as <-. split; [lia | reflexivity].
Qed.

(** Submitting a frame stamped [ticks n] as the [n+1]-th frame keeps the
    stamps of all frames in line. *)
Lemma stamps_encode p (t : num) :
  (forall k call, nth_error (submitted p) k = Some call ->
     f_timestamp (frame call) = ticks duration k /\ f_duration (frame call) = duration) ->
  t = ticks duration (List.length (submitted p)) ->
  forall k call, nth_error (submitted (encode t duration p)) k = Some call ->
     f_timestamp (frame call) = ticks duration k /\ f_duration (frame call) = duration.
Proof.
  intros Hold Ht k call Hk. cbn [encode submitted] in Hk.
  apply nth_error_snoc in Hk as [Hk | [-> ->]].
  - now apply Hold.
  - cbn [frame f_timestamp f_duration]. split; [exact Ht | reflexivity].
Qed.

Lemma timestamps_step m : timestamps_ok opts m -> timestamps_ok opts (step' m).
Proof.
  unfold timestamps_ok. intros [Hstamps Hctl].
  destruct m as [p c]. cbn [pipe ctl] in *.
  destruct c as [| date | date | date t | date | date | |]; unfold step; cbn [pipe ctl].
  - (* Created *)
    unfold visit. branch; cbn [pipe ctl]; auto.
  - (* AwaitColors *)
    split.
    + apply stamps_encode; [exact Hstamps | exact Hctl].
    + cbn [encode create2dFrame submitted timestamp]. rewrite length_app. cbn [List.length].
      exists (List.length (submitted p)). split; [lia | exact Hctl].
  - (* AwaitFlush *)
    destruct Hctl as (n' & Hn & Hts).
    assert (Hnext : nadd (timestamp p) duration = ticks duration (List.length (submitted p))).
    { rewrite Hn, Hts. reflexivity. }
    unfold freeze_iteration. branch; cbn [pipe ctl].
    + split.
      * apply stamps_encode; [exact Hstamps | exact Hnext].
      * cbn [encode advance_timestamp flushed submitted timestamp].
        rewrite length_app. cbn [List.length]. split; [| lia].
        exists (List.length (submitted p)). split; [lia | exact Hnext].
    + split; [exact Hstamps |]. left. exact Hnext.
    + split; [exact Hstamps |]. left. exact Hnext.
  - (* AwaitFreezeFlush *)
    destruct Hctl as [(n' & Hn & Ht) Hfinal].
    assert (Hnext : nadd t duration = ticks duration (List.length (submitted p))).
    { rewrite Hn, Ht. reflexivity. }
    unfold freeze_iteration. branch; cbn [pipe ctl].
    + split.
      * apply stamps_encode; [exact Hstamps | exact Hnext].
      * cbn [encode flushed submitted]. rewrite length_app. cbn [List.length].
        split; [| exact Hfinal].
        exists (List.length (submitted p)). split; [lia | exact Hnext].
    + split; [exact Hstamps |]. right. exact Hfinal.
  - (* Yielded *)
    split; [exact Hstamps | exact Hctl].
  - (* AwaitIncrement *)
    unfold dates_resume, visit.
    destruct (Z.geb_spec (days date) (days (endDate opts))) as [Hge | Hlt]; cbn [pipe ctl].
    + split; [exact Hstamps | exact I].
    + destruct Hctl as [Hts | Hfinal]; [| lia].
      branch; cbn [pipe ctl]; auto.
  - split; [exact Hstamps | exact I].
  - split; [exact Hstamps | exact I].
Qed.

Lemma timestamps_react m e : timestamps_ok opts m -> timestamps_ok opts (react' m e).
Proof.
  destruct e; [apply timestamps_step | |]; intros Hm; exact Hm.
Qed.

Lemma timestamps_run events : forall m,
  timestamps_ok opts m -> timestamps_ok opts (run' events m).
Proof.
  induction events as [| e events IH]; intros m Hm; [exact Hm |].
  cbn. apply IH, timestamps_react, Hm.
Qed.

Lemma timestamps_created : timestamps_ok opts created.
Proof.
  split; [| reflexivity]. intros [| k] call Hk; discriminate Hk.
Qed.

(** The cursor moves only when the flush of a stepped frame resolves. *)
Lemma cursor_after_stepped_flush m date :
  ctl m = AwaitFlush date ->
  timestamp (pipe (step' m)) = nadd (timestamp (pipe m)) duration.
Proof.
  destruct m as [p c]. cbn [ctl]. intros ->.
  unfold step, freeze_iteration. cbn [pipe ctl]. branch; reflexivity.
Qed.

Lemma cursor_unchanged m e :
  (e <> Resume \/ forall date, ctl m <> AwaitFlush date) ->
  timestamp (pipe (react' m e)) = timestamp (pipe m).
Proof.
  intros Hcase. destruct e; cbn [react]; try reflexivity.
  destruct Hcase as [Hne | Hctl]; [contradiction |].
  destruct m as [p c]. cbn [ctl] in Hctl.
  destruct c; unfold step, visit, freeze_iteration; cbn [pipe ctl]; branch;
    try reflexivity.
  all: exfalso; eapply Hctl; reflexivity.
Qed.

Section Monotone.

Hypothesis laws : order_laws (num := num).
Hypothesis positive_rate : nltb (of_Z 0) (fps opts) = true.

Lemma duration_nonnegative : nleb (of_Z 0) duration = true.
Proof.
  destruct laws as (_ & _ & _ & Hdiv). apply Hdiv, positive_rate.
Qed.

Lemma cursor_react_monotone m e :
  nleb (of_Z 0) (timestamp (pipe m)) = true ->
  nleb (timestamp (pipe m)) (timestamp (pipe (react' m e))) = true
  /\ nleb (of_Z 0) (timestamp (pipe (react' m e))) = true.
Proof.
  intros Hpos. destruct laws as (_ & Hrefl & Hadd & _).
  assert (Hsame : timestamp (pipe (react' m e)) = timestamp (pipe m) ->
    nleb (timestamp (pipe m)) (timestamp (pipe (react' m e))) = true
    /\ nleb (of_Z 0) (timestamp (pipe (react' m e))) = true).
  { intros ->. split; [now apply Hrefl | exact Hpos]. }
  destruct e; [| apply Hsame, cursor_unchanged; left; discriminate ..].
  destruct (ctl m) as [| date | date | date t | date | date | |] eqn:Hctl;
    try (apply Hsame, cursor_unchanged; right; intros date'; rewrite Hctl; discriminate).
  cbn [react]. rewrite (cursor_after_stepped_flush _ Hctl).
  apply Hadd; [exact Hpos | exact duration_nonnegative].
Qed.

Lemma cursor_run_nonnegative events : forall m,
  nleb (of_Z 0) (timestamp (pipe m)) = true ->
  nleb (of_Z 0) (timestamp (pipe (run' events m))) = true.
Proof.
  induction events as [| e events IH]; intros m Hm; [exact Hm |].
  cbn. apply IH. now apply cursor_react_monotone.
Qed.

End Monotone.

End Timestamps.

(** Exact rationals satisfy the order laws. *)
Lemma order_laws_Q : order_laws (num := Q).
Proof.
  unfold order_laws. cbn [of_Z nadd ndiv nleb nltb Number_Q].
  change (inject_Z 0) with 0%Q.
  split; [reflexivity | split; [| split]].
  - intros x _. apply Qle_bool_iff, Qle_refl.
  - intros x d Hx Hd. apply Qle_bool_iff in Hx, Hd.
    split; apply Qle_bool_iff; lra.
  - intros f Hpos. apply Qle_bool_iff.
    assert (Hf : (0 < f)%Q).
    { apply Qnot_le_lt. intros Hle. apply Qle_bool_iff in Hle.
      rewrite Hle in Hpos. discriminate Hpos. }
    unfold Qdiv. apply Qmult_le_0_compat; [discriminate |].
    apply Qlt_le_weak, Qinv_lt_0_compat, Hf.
Qed.

(** C4, as the code has it.  With a positive frame rate, and an order in
    which adding a non-negative duration does not decrease a timestamp, the
    timestamp cursor never decreases.  It is advanced by exactly one frame duration
    ([1_000_000 / fps]) per stepped frame, when the flush of that frame
    resolves, and by nothing else: freeze-frame repeats leave it where it is
    and are stamped by the loop variable instead.  The stamps themselves do
    advance by one frame duration per submitted frame, stepped frames and
    freeze-frame repeats alike: the [k+1]-th frame is stamped with [k]
    durations added to 0. *)
Theorem cursor_advances_per_stepped_frame {num : Type} {number : Number num}
  (eu4IncrementDate : Z -> DateInterval -> MapDate)
  (opts : TimelapseEncoderOptions num) (events : list Event) :
  let m := run eu4IncrementDate opts events created in
  (order_laws (num := num) -> nltb (of_Z 0) (fps opts) = true ->
   forall e,
     nleb (timestamp (pipe m)) (timestamp (pipe (react eu4IncrementDate opts m e))) = true)
  /\ (forall date, ctl m = AwaitFlush date ->
        timestamp (pipe (step eu4IncrementDate opts m))
        = nadd (timestamp (pipe m)) (frameDuration opts))
  /\ (forall e, (e <> Resume \/ forall date, ctl m <> AwaitFlush date) ->
        timestamp (pipe (react eu4IncrementDate opts m e)) = timestamp (pipe m))
  /\ (forall date t, ctl m = AwaitFreezeFlush date t ->
        timestamp (pipe (step eu4IncrementDate opts m)) = timestamp (pipe m))
  /\ (forall k call, nth_error (submitted (pipe m)) k = Some call ->
        f_timestamp (frame call) = ticks (frameDuration opts) k
        /\ f_duration (frame call) = frameDuration opts).
Proof.
  intros m.
  split; [| split; [| split; [| split]]].
  - intros laws Hrate e. apply cursor_react_monotone; [exact laws | exact Hrate |].
    apply cursor_run_nonnegative; [exact laws | exact Hrate |].
    destruct laws as (Hzero & _). exact Hzero.
  - intros date. apply cursor_after_stepped_flush.
  - intros e. apply cursor_unchanged.
  - intros date t Hctl.
    apply (cursor_unchanged eu4IncrementDate opts m (e := Resume)).
    right. intros date'. rewrite Hctl. discriminate.
  - apply (timestamps_run eu4IncrementDate events (timestamps_created opts)).
Qed.

Lemma cursor_advances_per_stepped_frame_witness :
  let m := drive fixed_step_engine weekly_exact 2 created in
  let m' := step fixed_step_engine weekly_exact m in
  ctl m = AwaitFlush (mkdate 0)
  /\ timestamp (pipe m') = nadd (timestamp (pipe m)) (frameDuration weekly_exact)
  /\ nleb (timestamp (pipe m)) (timestamp (pipe m')) = true
  /\ (exists call, nth_error (submitted (pipe m')) 0 = Some call
        /\ f_timestamp (frame call) = ticks (frameDuration weekly_exact) 0).
Proof.
  intros m m'.
  pose proof (cursor_advances_per_stepped_frame fixed_step_engine weekly_exact
                (repeat Resume 2)) as Hat.
  pose proof (cursor_advances_per_stepped_frame fixed_step_engine weekly_exact
                (repeat Resume 3)) as Hafter.
  split; [reflexivity |]. split; [| split].
  - apply (proj1 (proj2 Hat) (mkdate 0)). reflexivity.
  - apply (proj1 Hat order_laws_Q eq_refl Resume).
  - eexists. split; [vm_compute; reflexivity |].
    apply (proj2 (proj2 (proj2 (proj2 Hafter))) 0%nat). vm_compute. reflexivity.
Defined.

(** C4 fails on freeze-frame repeats: resuming from the flush of a
    freeze-frame repeat submits the next repeat and leaves the cursor where
    it was, one frame duration short. *)
Lemma cursor_ignores_freeze_frames :
  let m := drive fixed_step_engine single_date_1fps 3 created in
  let m' := step fixed_step_engine single_date_1fps m in
  ctl m = AwaitFreezeFlush (mkdate 0) (of_Z 1000000)
  /\ List.length (submitted (pipe m)) = 2%nat
  /\ List.length (submitted (pipe m')) = 3%nat
  /\ timestamp (pipe m') = timestamp (pipe m)
  /\ nltb (timestamp (pipe m'))
          (nadd (timestamp (pipe m)) (frameDuration single_date_1fps)) = true.
Proof.
  vm_compute. repeat split; reflexivity.
Qed.

(** ** Errors and cancellation *)

Section WindingDown.

Context {num : Type} {number : Number num}.
Variable eu4IncrementDate : Z -> DateInterval -> MapDate.
Variable opts : TimelapseEncoderOptions num.
Implicit Types (p : Pipeline num) (m : Machine num).

Local Abbreviation step' := (step eu4IncrementDate opts).
Local Abbreviation react' := (react eu4IncrementDate opts).
Local Abbreviation run' := (run eu4IncrementDate opts).

(** Once winding down, always winding down, and the encoder and the muxer
    are not touched any more. *)
Lemma winding_down_react m e :
  winding_down m = true ->
  winding_down (react' m e) = true
  /\ submitted (pipe (react' m e)) = submitted (pipe m)
  /\ pending (pipe (react' m e)) = pending (pipe m)
  /\ muxer (pipe (react' m e)) = muxer (pipe m)
  /\ encoderClosed (pipe (react' m e)) = encoderClosed (pipe m).
Proof.
  unfold winding_down. destruct m as [p c]. cbn [pipe ctl]. intros Hw.
  destruct e; cbn [react pipe ctl].
  - destruct c; cbn [completed between_dates] in Hw; cbn [orb andb] in Hw;
      try discriminate Hw;
      unfold step, visit; cbn [pipe ctl];
      destruct (error p); destruct (stopRequested p); try discriminate Hw;
      branch; cbn [pipe ctl completed between_dates orb andb error stopRequested];
      repeat split; try reflexivity; try assumption.
  - cbn [on_encoder_error error stopRequested submitted pending muxer encoderClosed].
    repeat split. destruct (completed c); [reflexivity |].
    cbn [orb] in *. destruct (between_dates c); [reflexivity | discriminate Hw].
  - cbn [stop snd error stopRequested submitted pending muxer encoderClosed].
    repeat split. destruct (completed c); [reflexivity |].
    cbn [orb] in *. destruct (between_dates c); [| discriminate Hw].
    cbn [andb]. apply orb_true_r.
Qed.

Lemma winding_down_run events : forall m,
  winding_down m = true ->
  winding_down (run' events m) = true
  /\ submitted (pipe (run' events m)) = submitted (pipe m)
  /\ pending (pipe (run' events m)) = pending (pipe m)
  /\ muxer (pipe (run' events m)) = muxer (pipe m)
  /\ encoderClosed (pipe (run' events m)) = encoderClosed (pipe m).
Proof.
  induction events as [| e events IH]; intros m Hw; [now repeat split |].
  cbn [run fold_left].
  destruct (winding_down_react m e Hw) as (Hw' & Hs & Hp & Hm & Hc).
  destruct (IH _ Hw') as (Hw'' & Hs' & Hp' & Hm' & Hc').
  unfold run in *.
  repeat split; [exact Hw'' | congruence ..].
Qed.

(** [stopRequested] is never reset. *)
Lemma stop_flag_react m e :
  stopRequested (pipe m) = true -> stopRequested (pipe (react' m e)) = true.
Proof.
  intros Hs. destruct e; cbn [react pipe]; [| exact Hs | reflexivity].
  by_step m; exact Hs.
Qed.

Lemma stop_flag_run events : forall m,
  stopRequested (pipe m) = true -> stopRequested (pipe (run' events m)) = true.
Proof.
  induction events as [| e events IH]; intros m Hs; [exact Hs |].
  cbn. apply IH, stop_flag_react, Hs.
Qed.

Lemma stop_called_run events : forall m,
  In StopCall events -> stopRequested (pipe (run' events m)) = true.
Proof.
  induction events as [| e events IH]; intros m Hin; [contradiction |].
  cbn [run fold_left]. destruct Hin as [-> | Hin].
  - apply stop_flag_run. reflexivity.
  - apply IH, Hin.
Qed.





End WindingDown.

(** *** On the platform's encoder *)

Section PlatformEncoder.

Context {num : Type} {number : Number num}.
Variable eu4IncrementDate : Z -> DateInterval -> MapDate.
Variable opts : TimelapseEncoderOptions num.
Implicit Types (p : Pipeline num) (m : Machine num).

Local Abbreviation step' := (step eu4IncrementDate opts).
Local Abbreviation pstep := (platform_step eu4IncrementDate opts).
Local Abbreviation preact := (platform_react eu4IncrementDate opts).
Local Abbreviation prun := (platform_run eu4IncrementDate opts).

(** The generator itself never closes the encoder. *)
Lemma step_keeps_encoder m : encoderClosed (pipe (step' m)) = encoderClosed (pipe m).
Proof.
  by_step m; reflexivity.
Qed.

(** A closed encoder stays closed, keeps the failure it reported, and takes
    nothing more; the muxer receives nothing more either. *)
Lemma closed_encoder_react m e :
  encoderClosed (pipe m) = true ->
  encoderClosed (pipe (preact m e)) = true
  /\ error (pipe (preact m e)) = error (pipe m)
  /\ submitted (pipe (preact m e)) = submitted (pipe m)
  /\ muxer (pipe (preact m e)) = muxer (pipe m).
Proof.
  destruct m as [p c]. cbn [pipe ctl]. intros Hclosed.
  destruct e; cbn [platform_react pipe ctl].
  - unfold platform_step. cbn [pipe ctl]. rewrite Hclosed.
    destruct c; cbn [pipe ctl rejected_encode create2dFrame
                     encoderClosed error submitted muxer];
      try (repeat split; assumption);
      unfold step, visit; cbn [pipe ctl]; branch; cbn [pipe ctl];
      repeat split; assumption.
  - unfold encoder_fails. rewrite Hclosed. repeat split; assumption.
  - cbn. repeat split; assumption.
Qed.

Lemma closed_encoder_run events : forall m,
  encoderClosed (pipe m) = true ->
  encoderClosed (pipe (prun events m)) = true
  /\ error (pipe (prun events m)) = error (pipe m)
  /\ submitted (pipe (prun events m)) = submitted (pipe m)
  /\ muxer (pipe (prun events m)) = muxer (pipe m).
Proof.
  induction events as [| e events IH]; intros m Hclosed; [now repeat split |].
  cbn [platform_run fold_left].
  destruct (closed_encoder_react m e Hclosed) as (Hc & He & Hs & Hm).
  destruct (IH _ Hc) as (Hc' & He' & Hs' & Hm').
  unfold platform_run in *. repeat split; congruence.
Qed.

(** A generator that has completed stays as it is. *)
Lemma completed_run events : forall m,
  completed (ctl m) = true -> ctl (prun events m) = ctl m.
Proof.
  induction events as [| e events IH]; intros m Hdone; [reflexivity |].
  cbn [platform_run fold_left].
  assert (Hsame : ctl (preact m e) = ctl m).
  { destruct m as [p c]. cbn [ctl] in Hdone.
    destruct c; try discriminate Hdone;
      destruct e; cbn [platform_react ctl]; try reflexivity;
      unfold platform_step; cbn [pipe ctl]; destruct (encoderClosed p); reflexivity. }
  unfold platform_run in *. rewrite IH; [exact Hsame | now rewrite Hsame].
Qed.

(** As long as no encoder error occurs, the platform's encoder and the
    encoder of [step] are the same. *)
Lemma platform_run_error_free events : forall m,
  error_free events -> encoderClosed (pipe m) = false ->
  prun events m = run eu4IncrementDate opts events m.
Proof.
  induction events as [| e events IH]; intros m Hfree Hopen; [reflexivity |].
  cbn [platform_run run fold_left].
  assert (Hfree' : error_free events).
  { intros message Hin. apply (Hfree message). now right. }
  assert (Hsame : preact m e = react eu4IncrementDate opts m e).
  { destruct e; cbn [platform_react react].
    - unfold platform_step. now rewrite Hopen.
    - exfalso. apply (Hfree message). now left.
    - reflexivity. }
  rewrite Hsame. apply IH; [exact Hfree' |].
  destruct e; cbn [react pipe].
  - now rewrite step_keeps_encoder.
  - exfalso. apply (Hfree message). now left.
  - exact Hopen.
Qed.

(** The steps of a generator between two dates once a failure is captured:
    the next check throws it. *)
Lemma failed_between_dates p (message : string) :
  encoderClosed p = true -> error p = Some message ->
  pstep {| pipe := p; ctl := Created |} = {| pipe := p; ctl := Thrown message |}
  /\ (forall date,
        pstep {| pipe := p; ctl := Yielded date |}
        = {| pipe := p; ctl := AwaitIncrement date |})
  /\ (forall date,
        pstep {| pipe := p; ctl := AwaitIncrement date |}
        = {| pipe := p;
             ctl := match dates_resume eu4IncrementDate (endDate opts) (interval opts) date
                    with
                    | Some _ => Thrown message
                    | None => Returned
                    end |})
  /\ (forall c, completed c = true -> pstep {| pipe := p; ctl := c |} = {| pipe := p; ctl := c |}).
Proof.
  intros Hclosed Herr. unfold platform_step. cbn [pipe ctl]. rewrite Hclosed.
  repeat split.
  - unfold step, visit. cbn [pipe ctl]. now rewrite Herr.
  - intros date. unfold step. cbn [pipe ctl].
    destruct (dates_resume eu4IncrementDate (endDate opts) (interval opts) date);
      [| reflexivity].
    unfold visit. now rewrite Herr.
  - intros c Hdone. destruct c; try discriminate Hdone; reflexivity.
Qed.

End PlatformEncoder.

(** C7, as the code has it on the platform's encoder.  When the [error]
    callback captures a failure, the platform has closed the encoder: from
    then on the encoder takes no frame and the muxer no chunk, whatever
    happens, and the sequence ends at the generator's next step.  Suspended
    between two dates, the generator throws the captured message at the check
    of the next date, or returns normally when the sequencer has no date
    left; suspended on a flush, it throws the captured failure, with which
    the flush was rejected; suspended on the colours of a date, it still
    builds that date's frame and calls [encode()], which throws the
    encoder's invalid-state error in place of the captured message. *)
Theorem encoder_failure_ends_sequence {num : Type} {number : Number num}
  (eu4IncrementDate : Z -> DateInterval -> MapDate)
  (opts : TimelapseEncoderOptions num) (m0 : Machine num) (message : string) :
  encoderClosed (pipe m0) = false ->
  let m := platform_react eu4IncrementDate opts m0 (EncoderError message) in
  error (pipe m) = Some message
  /\ encoderClosed (pipe m) = true
  /\ (forall events,
        submitted (pipe (platform_run eu4IncrementDate opts events m)) = submitted (pipe m0)
        /\ muxer (pipe (platform_run eu4IncrementDate opts events m)) = muxer (pipe m0)
        /\ error (pipe (platform_run eu4IncrementDate opts events m)) = Some message)
  /\ match ctl m0 with
     | Created | Yielded _ | AwaitIncrement _ =>
         ctl (platform_drive eu4IncrementDate opts 2 m)
         = match next_date eu4IncrementDate opts (ctl m0) with
           | Some _ => Thrown message
           | None => Returned
           end
     | AwaitColors date =>
         platform_step eu4IncrementDate opts m
         = {| pipe := rejected_encode date (pipe m); ctl := Thrown invalid_state_error |}
     | AwaitFlush _ | AwaitFreezeFlush _ _ =>
         platform_step eu4IncrementDate opts m = {| pipe := pipe m; ctl := Thrown message |}
     | Returned | Thrown _ =>
         forall events, ctl (platform_run eu4IncrementDate opts events m) = ctl m0
     end.
Proof.
  intros Hopen m.
  assert (Hpipe : pipe m = close_encoder (on_encoder_error message (pipe m0))).
  { subst m. cbn [platform_react pipe]. unfold encoder_fails. now rewrite Hopen. }
  assert (Herr : error (pipe m) = Some message) by now rewrite Hpipe.
  assert (Hclosed : encoderClosed (pipe m) = true) by now rewrite Hpipe.
  split; [exact Herr | split; [exact Hclosed | split]].
  - intros events.
    destruct (closed_encoder_run eu4IncrementDate opts events m Hclosed)
      as (_ & He & Hs & Hm).
    rewrite He, Hs, Hm, Hpipe. repeat split; assumption.
  - assert (Hctl : ctl m = ctl m0) by reflexivity.
    destruct (failed_between_dates eu4IncrementDate opts (pipe m) Hclosed Herr)
      as (Hcreated & Hyielded & Hincrement & Hdone).
    destruct m as [p c]. cbn [pipe ctl] in *. subst c.
    destruct (ctl m0) as [| date | date | date t | date | date | |];
      cbn [next_date].
    + (* Created *)
      change (platform_drive eu4IncrementDate opts 2 {| pipe := p; ctl := Created |})
        with (platform_step eu4IncrementDate opts
                (platform_step eu4IncrementDate opts {| pipe := p; ctl := Created |})).
      rewrite Hcreated, (Hdone (Thrown message) eq_refl). reflexivity.
    + (* AwaitColors *)
      unfold platform_step. cbn [pipe ctl]. now rewrite Hclosed.
    + (* AwaitFlush *)
      unfold platform_step. cbn [pipe ctl]. now rewrite Hclosed, Herr.
    + (* AwaitFreezeFlush *)
      unfold platform_step. cbn [pipe ctl]. now rewrite Hclosed, Herr.
    + (* Yielded *)
      change (platform_drive eu4IncrementDate opts 2 {| pipe := p; ctl := Yielded date |})
        with (platform_step eu4IncrementDate opts
                (platform_step eu4IncrementDate opts {| pipe := p; ctl := Yielded date |})).
      rewrite Hyielded, Hincrement. reflexivity.
    + (* AwaitIncrement *)
      change (platform_drive eu4IncrementDate opts 2
                {| pipe := p; ctl := AwaitIncrement date |})
        with (platform_step eu4IncrementDate opts
                (platform_step eu4IncrementDate opts
                   {| pipe := p; ctl := AwaitIncrement date |})).
      rewrite Hincrement.
      destruct (dates_resume eu4IncrementDate (endDate opts) (interval opts) date);
        now rewrite Hdone.
    + intros events.
      exact (completed_run eu4IncrementDate opts events
               {| pipe := p; ctl := Returned |} eq_refl).
    + intros events.
      exact (completed_run eu4IncrementDate opts events
               {| pipe := p; ctl := Thrown message0 |} eq_refl).
Qed.

Lemma encoder_failure_ends_sequence_witness :
  let m0 := platform_drive fixed_step_engine daily_200 3 created in
  let m := platform_react fixed_step_engine daily_200 m0 (EncoderError "encoder failure") in
  ctl m0 = Yielded (mkdate 0)
  /\ ctl (platform_drive fixed_step_engine daily_200 2 m) = Thrown "encoder failure".
Proof.
  intros m0 m. split; [reflexivity |].
  exact (proj2 (proj2 (proj2
    (@encoder_failure_ends_sequence _ _ fixed_step_engine daily_200 m0 "encoder failure"
       eq_refl)))).
Defined.

(** C7 fails when the failure is captured after the last date was yielded:
    no check is left, and the next advancement ends the sequence normally
    instead of throwing. *)
Lemma sequence_returns_after_late_failure :
  let m := platform_run fixed_step_engine single_date_1fps
             (repeat Resume 5 ++ [EncoderError "encoder failure"]) created in
  ctl m = Yielded (mkdate 0)
  /\ error (pipe m) = Some "encoder failure"%string
  /\ ctl (platform_drive fixed_step_engine single_date_1fps 1 m) = AwaitIncrement (mkdate 0)
  /\ ctl (platform_drive fixed_step_engine single_date_1fps 2 m) = Returned.
Proof.
  vm_compute. repeat split; reflexivity.
Qed.



(** * Further properties *)

(** ** The date sequencer, whatever the engine answers *)

Section DatesBounds.

Variable eu4IncrementDate : Z -> DateInterval -> MapDate.
Variables (end_ : MapDate) (step : DateInterval).

Local Abbreviation resume := (dates_resume eu4IncrementDate end_ step).
Local Abbreviation from := (dates_from eu4IncrementDate end_ step).

Lemma dates_resume_none (current : MapDate) :
  resume current = None -> days end_ <= days current.
Proof.
  unfold dates_resume.
  destruct (Z.geb_spec (days current) (days end_)) as [Hge | Hlt]; [lia |].
  destruct (_ >? _); discriminate.
Qed.

Lemma dates_resume_some (current next : MapDate) :
  resume current = Some next ->
  days current < days end_
  /\ days next <= days end_
  /\ (next = end_ /\ days end_ < days (eu4IncrementDate (days current) step)
      \/ next = eu4IncrementDate (days current) step).
Proof.
  unfold dates_resume.
  destruct (Z.geb_spec (days current) (days end_)) as [Hge | Hlt]; [discriminate |].
  destruct (Z.gtb_spec (days (eu4IncrementDate (days current) step)) (days end_))
    as [Hover | Hin]; intros [= <-].
  - repeat split; [exact Hlt | lia | left; split; [reflexivity | exact Hover]].
  - repeat split; [exact Hlt | exact Hin | right; reflexivity].
Qed.

Lemma dates_from_bounds (fuel : nat) : forall current l,
  from fuel current = Some l ->
  exists rest,
    l = current :: rest
    /\ Forall (fun d => days d <= days end_) rest
    /\ Forall (fun d => days d < days end_) (removelast l)
    /\ days end_ <= days (last l current).
Proof.
  induction fuel as [| fuel IH]; intros current l Hrun; [discriminate Hrun |].
  cbn [dates_from] in Hrun.
  destruct (resume current) as [next |] eqn:Hresume.
  - destruct (from fuel next) as [l' |] eqn:Hrest; [| discriminate Hrun].
    injection Hrun as <-.
    destruct (dates_resume_some _ Hresume) as (Hlt & Hle & _).
    destruct (IH next l' Hrest) as (rest & -> & Hall & Hinit & Hlast).
    exists (next :: rest). repeat split.
    + constructor; assumption.
    + change (removelast (current :: next :: rest))
        with (current :: removelast (next :: rest)).
      constructor; assumption.
    + rewrite !last_cons_default. rewrite last_cons_default in Hlast. exact Hlast.
  - injection Hrun as <-. exists []. repeat split.
    + constructor.
    + constructor.
    + cbn. now apply dates_resume_none.
Qed.

Section Advancing.

Hypothesis increment_advances : forall d, d < days (eu4IncrementDate d step).

Lemma dates_from_increasing (fuel : nat) : forall current l,
  from fuel current = Some l ->
  days_increasing l
  /\ Z.of_nat (List.length l) <= Z.max 1 (days end_ - days current + 1).
Proof.
  induction fuel as [| fuel IH]; intros current l Hrun; [discriminate Hrun |].
  cbn [dates_from] in Hrun.
  destruct (resume current) as [next |] eqn:Hresume.
  - destruct (from fuel next) as [l' |] eqn:Hrest; [| discriminate Hrun].
    injection Hrun as <-.
    destruct (dates_resume_some _ Hresume) as (Hlt & Hle & Hwhich).
    assert (Hup : days current < days next).
    { destruct Hwhich as [[-> _] | ->]; [exact Hlt | apply increment_advances]. }
    destruct (IH next l' Hrest) as (Hinc & Hlen).
    destruct (dates_from_bounds fuel next Hrest) as (rest & -> & _).
    split.
    + split; [exact Hup | exact Hinc].
    + cbn [List.length] in *. lia.
  - injection Hrun as <-. split; [exact I | cbn; lia].
Qed.

End Advancing.

(** An engine that answers with the same day again keeps the loop going for
    ever. *)
Lemma dates_from_stalled (fuel : nat) : forall current,
  days current < days end_ ->
  days (eu4IncrementDate (days current) step) = days current ->
  from fuel current = None.
Proof.
  induction fuel as [| fuel IH]; intros current Hlt Hsame; [reflexivity |].
  cbn [dates_from]. unfold dates_resume.
  destruct (Z.geb_spec (days current) (days end_)) as [Hge | _]; [lia |].
  destruct (Z.gtb_spec (days (eu4IncrementDate (days current) step)) (days end_))
    as [Hover | _]; [lia |].
  rewrite IH; [reflexivity | lia | now rewrite Hsame].
Qed.

End DatesBounds.

(** X1. Whatever the engine answers, a completed run of [dates] never emits a
    date past [end] after the first element, every element but the last is
    strictly before [end], and the last one has reached [end]. *)
Theorem dates_stay_within_end
  (eu4IncrementDate : Z -> DateInterval -> MapDate)
  (start end_ : MapDate) (step : DateInterval) (fuel : nat) (l : list MapDate) :
  dates eu4IncrementDate start end_ step fuel = Some l ->
  hd_error l = Some start
  /\ Forall (fun d => days d <= days end_) (tl l)
  /\ Forall (fun d => days d < days end_) (removelast l)
  /\ days end_ <= days (last l start).
Proof.
  intros Hrun.
  destruct (dates_from_bounds eu4IncrementDate end_ step fuel start Hrun)
    as (rest & -> & Hall & Hinit & Hlast).
  repeat split; assumption.
Qed.

Lemma dates_stay_within_end_witness :
  let l := [mkdate 0; mkdate 365; mkdate 730; mkdate 1000] in
  Forall (fun d => days d <= 1000) (tl l)
  /\ Forall (fun d => days d < 1000) (removelast l)
  /\ 1000 <= days (last l (mkdate 0)).
Proof.
  intros l.
  destruct (@dates_stay_within_end fixed_step_engine (mkdate 0) (mkdate 1000) Year 10 l)
    as (_ & Hall & Hinit & Hlast); [reflexivity |].
  repeat split; assumption.
Defined.

(** X2. When the engine's increment moves forward, the days of the emitted
    dates strictly increase (no date is emitted twice) and there are at most
    [end.days - start.days + 1] of them, or one when the range is inverted. *)
Theorem dates_strictly_increase
  (eu4IncrementDate : Z -> DateInterval -> MapDate)
  (start end_ : MapDate) (step : DateInterval) (fuel : nat) (l : list MapDate) :
  (forall d, d < days (eu4IncrementDate d step)) ->
  dates eu4IncrementDate start end_ step fuel = Some l ->
  days_increasing l
  /\ Z.of_nat (List.length l) <= Z.max 1 (days end_ - days start + 1).
Proof.
  intros Hadv Hrun.
  exact (dates_from_increasing eu4IncrementDate end_ step Hadv fuel start Hrun).
Qed.

Lemma dates_strictly_increase_witness :
  let l := [mkdate 0; mkdate 7; mkdate 14; mkdate 20] in
  days_increasing l /\ Z.of_nat (List.length l) <= 21.
Proof.
  intros l.
  apply (@dates_strictly_increase fixed_step_engine (mkdate 0) (mkdate 20) Week 5 l).
  - intros d. simpl. lia.
  - reflexivity.
Defined.

(** X3. When the engine answers the first increment with the day it was asked
    about, short of [end], [dates] never completes: it keeps emitting that
    day. *)
Theorem dates_never_completes_on_stalled_engine
  (eu4IncrementDate : Z -> DateInterval -> MapDate)
  (start end_ : MapDate) (step : DateInterval) (fuel : nat) :
  days start < days end_ ->
  days (eu4IncrementDate (days start) step) = days start ->
  dates eu4IncrementDate start end_ step fuel = None.
Proof.
  intros Hlt Hsame. unfold dates. now apply dates_from_stalled.
Qed.

Lemma dates_never_completes_on_stalled_engine_witness :
  dates (fun d _ => mkdate d) (mkdate 0) (mkdate 5) Day 1000 = None.
Proof.
  apply (@dates_never_completes_on_stalled_engine (fun d _ => mkdate d)
           (mkdate 0) (mkdate 5) Day 1000).
  - simpl. lia.
  - reflexivity.
Defined.

(** ** Frames in flight and their order *)

Section Frames.

Context {num : Type} {number : Number num}.
Variable eu4IncrementDate : Z -> DateInterval -> MapDate.
Variable opts : TimelapseEncoderOptions num.
Implicit Types (p : Pipeline num) (m : Machine num).

Local Abbreviation step' := (step eu4IncrementDate opts).
Local Abbreviation react' := (react eu4IncrementDate opts).
Local Abbreviation run' := (run eu4IncrementDate opts).

Lemma one_in_flight_step m : one_in_flight m -> one_in_flight (step' m).
Proof.
  unfold one_in_flight. destruct m as [p c]. cbn [pipe ctl]. intros (Hall & Hq).
  destruct c as [| date | date | date t | date | date | |];
    unfold step, visit, freeze_iteration; cbn [pipe ctl]; branch;
    cbn [pipe ctl encode flushed advance_timestamp create2dFrame
         muxer pending submitted canvas];
    try (split; [exact Hall | exact Hq]).
  - (* the stepped frame is submitted *)
    rewrite Hq in *. rewrite app_nil_r in Hall. cbn [app]. rewrite Hall.
    split; [reflexivity | split; [reflexivity |]].
    eexists. split; reflexivity.
  - (* first freeze-frame repeat *)
    destruct Hq as (Hcanvas & call & Hpending & Himage).
    rewrite Hall. cbn [app].
    split; [reflexivity | split; [exact Hcanvas |]].
    eexists. split; [reflexivity |]. unfold image. cbn. exact Hcanvas.
  - rewrite app_nil_r. split; [exact Hall | reflexivity].
  - rewrite app_nil_r. split; [exact Hall | reflexivity].
  - (* next freeze-frame repeat *)
    destruct Hq as (Hcanvas & call & Hpending & Himage).
    rewrite Hall. cbn [app].
    split; [reflexivity | split; [exact Hcanvas |]].
    eexists. split; [reflexivity |]. unfold image. cbn. exact Hcanvas.
  - rewrite app_nil_r. split; [exact Hall | reflexivity].
Qed.

Lemma one_in_flight_react m e : one_in_flight m -> one_in_flight (react' m e).
Proof.
  destruct e; [apply one_in_flight_step | |]; intros Hm; exact Hm.
Qed.

Lemma one_in_flight_run events : forall m,
  one_in_flight m -> one_in_flight (run' events m).
Proof.
  induction events as [| e events IH]; intros m Hm; [exact Hm |].
  cbn. apply IH, one_in_flight_react, Hm.
Qed.

Lemma one_in_flight_created : one_in_flight (created (num := num)).
Proof.
  split; reflexivity.
Qed.

End Frames.

(** X4. In every run without an encoder error at most one submitted frame
    has not reached the muxer yet, and the muxer holds the others in the
    order of submission; at every suspension point other than a flush wait
    (in particular whenever a date has been yielded, and once the generator
    has completed) no frame is left in the encoder and the muxer holds every
    submitted frame. *)
Theorem at_most_one_frame_in_flight {num : Type} {number : Number num}
  (eu4IncrementDate : Z -> DateInterval -> MapDate)
  (opts : TimelapseEncoderOptions num) (events : list Event) :
  error_free events ->
  let m := run eu4IncrementDate opts events created in
  muxer (pipe m) ++ pending (pipe m) = submitted (pipe m)
  /\ (List.length (pending (pipe m)) <= 1)%nat
  /\ (awaiting_flush (ctl m) = false ->
      pending (pipe m) = [] /\ muxer (pipe m) = submitted (pipe m)).
Proof.
  intros _ m.
  destruct (one_in_flight_run eu4IncrementDate opts events one_in_flight_created)
    as (Hall & Hq).
  fold m in Hall, Hq.
  split; [exact Hall |].
  destruct (ctl m) as [| date | date | date t | date | date | |];
    cbn [awaiting_flush];
    try (rewrite Hq in *; rewrite app_nil_r in Hall; cbn [List.length];
         repeat split; try lia; auto);
    destruct Hq as (_ & call & Hpending & _); rewrite Hpending; cbn [List.length];
    (split; [lia | discriminate]).
Qed.

Lemma at_most_one_frame_in_flight_witness :
  pending (pipe (run fixed_step_engine daily_200 (repeat Resume 3) created)) = []
  /\ muxer (pipe (run fixed_step_engine daily_200 (repeat Resume 3) created))
     = submitted (pipe (run fixed_step_engine daily_200 (repeat Resume 3) created)).
Proof.
  apply (proj2 (proj2
    (@at_most_one_frame_in_flight _ _ fixed_step_engine daily_200 (repeat Resume 3)
       (fun message Hin =>
          ltac:(repeat (destruct Hin as [Hin | Hin]; [discriminate Hin |]); exact Hin))))).
  reflexivity.
Defined.

Section DateOrder.

Context {num : Type} {number : Number num}.
Variable eu4IncrementDate : Z -> DateInterval -> MapDate.
Variable opts : TimelapseEncoderOptions num.
Implicit Types (p : Pipeline num) (m : Machine num).

Local Abbreviation step' := (step eu4IncrementDate opts).
Local Abbreviation react' := (react eu4IncrementDate opts).
Local Abbreviation run' := (run eu4IncrementDate opts).

Hypothesis increment_advances :
  forall d, d < days (eu4IncrementDate d (interval opts)).

(** The days shown never decrease along [calls]. *)
Local Abbreviation ordered calls :=
  (forall i j a b, (i <= j)%nat ->
     nth_error calls i = Some a -> nth_error calls j = Some b ->
     exists da db, image a = Some da /\ image b = Some db /\ days da <= days db).

(** Every call of [calls] shows a date not later than [d]. *)
Local Abbreviation upto d calls :=
  (forall call, In call calls -> exists dc, image call = Some dc /\ days dc <= days d).

Lemma ordered_snoc (calls : list (EncodeCall num)) (c : EncodeCall num) (d : MapDate) :
  ordered calls -> upto d calls -> image c = Some d ->
  ordered (calls ++ [c]) /\ upto d (calls ++ [c]).
Proof.
  intros Hord Hupto Hc. split.
  - intros i j a b Hij Ha Hb.
    apply nth_error_snoc in Ha as [Ha | [-> ->]];
      apply nth_error_snoc in Hb as [Hb | [-> ->]].
    + exact (Hord i j a b Hij Ha Hb).
    + destruct (Hupto a (nth_error_In _ _ Ha)) as (da & Hda & Hle).
      exists da, d. repeat split; assumption.
    + assert (j < List.length calls)%nat by (apply nth_error_Some; congruence). lia.
    + exists d, d. repeat split; [assumption | assumption | lia].
  - intros call Hin. apply in_app_or in Hin as [Hin | [<- | []]].
    + now apply Hupto.
    + exists d. split; [exact Hc | lia].
Qed.

Lemma upto_later (calls : list (EncodeCall num)) (d d' : MapDate) :
  days d <= days d' -> upto d calls -> upto d' calls.
Proof.
  intros Hle Hupto call Hin. destruct (Hupto call Hin) as (dc & Hdc & Hle').
  exists dc. split; [exact Hdc | lia].
Qed.

Lemma in_date_order_step m : in_date_order m -> in_date_order (step' m).
Proof.
  unfold in_date_order. destruct m as [p c]. cbn [pipe ctl]. intros (Hord & Hctl).
  destruct c as [| date | date | date t | date | date | |]; unfold step; cbn [pipe ctl].
  - (* Created *)
    unfold visit. branch; cbn [pipe ctl]; (split; [exact Hord |]); try exact I.
    rewrite Hctl. intros call [].
  - (* AwaitColors *)
    cbn [encode create2dFrame submitted canvas].
    destruct (@ordered_snoc (submitted p)
                {| frame := {| f_timestamp := timestamp p; f_duration := frameDuration opts;
                               f_image := Some date |};
                   keyFrame := Z.rem (frameCount p + 1) 150 =? 0 |} date Hord Hctl eq_refl)
      as (Hord' & Hupto').
    split; [exact Hord' | split; [reflexivity | exact Hupto']].
  - (* AwaitFlush *)
    destruct Hctl as (Hcanvas & Hupto).
    unfold freeze_iteration. branch; cbn [pipe ctl];
      cbn [encode advance_timestamp flushed submitted canvas].
    + destruct (@ordered_snoc (submitted p)
                  {| frame := {| f_timestamp := nadd (timestamp p) (frameDuration opts);
                                 f_duration := frameDuration opts; f_image := canvas p |};
                     keyFrame := Z.rem (frameCount p + 1) 150 =? 0 |} date Hord Hupto Hcanvas)
        as (Hord' & Hupto').
      split; [exact Hord' | split; [exact Hcanvas | exact Hupto']].
    + split; [exact Hord | exact Hupto].
    + split; [exact Hord | exact Hupto].
  - (* AwaitFreezeFlush *)
    destruct Hctl as (Hcanvas & Hupto).
    unfold freeze_iteration. branch; cbn [pipe ctl];
      cbn [encode flushed submitted canvas].
    + destruct (@ordered_snoc (submitted p)
                  {| frame := {| f_timestamp := nadd t (frameDuration opts);
                                 f_duration := frameDuration opts; f_image := canvas p |};
                     keyFrame := Z.rem (frameCount p + 1) 150 =? 0 |} date Hord Hupto Hcanvas)
        as (Hord' & Hupto').
      split; [exact Hord' | split; [exact Hcanvas | exact Hupto']].
    + split; [exact Hord | exact Hupto].
  - (* Yielded *)
    split; [exact Hord | exact Hctl].
  - (* AwaitIncrement *)
    destruct (dates_resume eu4IncrementDate (endDate opts) (interval opts) date)
      as [next |] eqn:Hresume; cbn [pipe ctl]; [| split; [exact Hord | exact I]].
    destruct (dates_resume_some _ _ _ _ Hresume) as (Hlt & _ & Hwhich).
    assert (Hup : days date <= days next).
    { destruct Hwhich as [[-> _] | ->]; [lia |].
      pose proof (increment_advances (days date)). lia. }
    unfold visit. branch; cbn [pipe ctl]; (split; [exact Hord |]); try exact I.
    exact (@upto_later (submitted p) date next Hup Hctl).
  - split; [exact Hord | exact I].
  - split; [exact Hord | exact I].
Qed.

Lemma in_date_order_react m e : in_date_order m -> in_date_order (react' m e).
Proof.
  destruct e; [apply in_date_order_step | |]; intros Hm; exact Hm.
Qed.

Lemma in_date_order_run events : forall m,
  in_date_order m -> in_date_order (run' events m).
Proof.
  induction events as [| e events IH]; intros m Hm; [exact Hm |].
  cbn. apply IH, in_date_order_react, Hm.
Qed.

Lemma in_date_order_created : in_date_order (created (num := num)).
Proof.
  split; [| reflexivity]. intros [| i] j a b _ Ha; discriminate Ha.
Qed.

End DateOrder.

(** X5. When the engine's increment moves forward, in every run each
    submitted frame shows a date (never the blank canvas), no frame shows a
    date later than the one the generator currently holds, and along the
    encode calls the day shown never decreases: frames are submitted in date
    order. *)
Theorem frames_in_date_order {num : Type} {number : Number num}
  (eu4IncrementDate : Z -> DateInterval -> MapDate)
  (opts : TimelapseEncoderOptions num) (events : list Event) :
  (forall d, d < days (eu4IncrementDate d (interval opts))) ->
  let m := run eu4IncrementDate opts events created in
  (forall i j a b, (i <= j)%nat ->
     nth_error (submitted (pipe m)) i = Some a ->
     nth_error (submitted (pipe m)) j = Some b ->
     exists da db, image a = Some da /\ image b = Some db /\ days da <= days db)
  /\ (forall d call, current_date (ctl m) = Some d -> In call (submitted (pipe m)) ->
      exists dc, image call = Some dc /\ days dc <= days d).
Proof.
  intros Hadv m.
  destruct (in_date_order_run eu4IncrementDate opts Hadv events (in_date_order_created))
    as (Hord & Hctl).
  fold m in Hord, Hctl. split; [exact Hord |].
  intros d call Hcur Hin.
  destruct (ctl m) as [| date | date | date t | date | date | |];
    cbn [current_date] in Hcur; try discriminate Hcur;
    injection Hcur as <-;
    try (destruct Hctl as (_ & Hctl)); now apply Hctl.
Qed.

Lemma frames_in_date_order_witness :
  exists a b da db,
    nth_error
      (submitted (pipe (run fixed_step_engine daily_200 (repeat Resume 12) created))) 0
      = Some a
    /\ nth_error
         (submitted (pipe (run fixed_step_engine daily_200 (repeat Resume 12) created))) 2
       = Some b
    /\ image a = Some da /\ image b = Some db /\ days da <= days db.
Proof.
  assert (Ha : exists a,
    nth_error
      (submitted (pipe (run fixed_step_engine daily_200 (repeat Resume 12) created))) 0
    = Some a) by (eexists; vm_compute; reflexivity).
  assert (Hb : exists b,
    nth_error
      (submitted (pipe (run fixed_step_engine daily_200 (repeat Resume 12) created))) 2
    = Some b) by (eexists; vm_compute; reflexivity).
  destruct Ha as [a Ha], Hb as [b Hb].
  destruct (proj1 (@frames_in_date_order _ _ fixed_step_engine daily_200 (repeat Resume 12)
                     (fun d => ltac:(simpl; lia))) 0%nat 2%nat a b (Nat.le_0_l 2) Ha Hb)
    as (da & db & Hda & Hdb & Hle).
  exists a, b, da, db.
  exact (conj Ha (conj Hb (conj Hda (conj Hdb Hle)))).
Defined.

(** ** Stopping while a date is in progress *)

Section StopInProgress.

Context {num : Type} {number : Number num}.
Variable eu4IncrementDate : Z -> DateInterval -> MapDate.
Variable opts : TimelapseEncoderOptions num.
Implicit Types (p : Pipeline num) (m : Machine num).

Local Abbreviation step' := (step eu4IncrementDate opts).
Local Abbreviation react' := (react eu4IncrementDate opts).
Local Abbreviation run' := (run eu4IncrementDate opts).

Lemma finishing_date_react (d : MapDate) (base : list (EncodeCall num)) m e :
  finishing_date d base m -> finishing_date d base (react' m e).
Proof.
  intros (Hstop & (extra & Hsub & Hall) & Hwhere).
  split; [now apply stop_flag_react |].
  destruct Hwhere as [Hw | [Hctl | (Hcanvas & Hflush & Hprog)]].
  - (* about to complete *)
    destruct (winding_down_react eu4IncrementDate opts m e Hw) as (Hw' & Hs & _).
    split; [| left; exact Hw'].
    exists extra. rewrite Hs. split; assumption.
  - (* the colours of [d] are awaited *)
    destruct m as [p c]. cbn [pipe ctl] in *. subst c.
    destruct e; cbn [react pipe ctl].
    + unfold step. cbn [pipe ctl encode create2dFrame submitted canvas]. split.
      * eexists (extra ++ [_]). rewrite Hsub, <- app_assoc. split; [reflexivity |].
        apply Forall_app. split; [exact Hall |]. constructor; [reflexivity | constructor].
      * right. right. repeat split.
    + split; [exists extra; split; assumption | right; left; reflexivity].
    + split; [exists extra; split; assumption | right; left; reflexivity].
  - (* a flush of a frame of [d] is awaited *)
    destruct m as [p c]. cbn [pipe ctl] in *.
    destruct c as [| date | date | date t | date | date | |];
      cbn [awaiting_flush date_in_progress] in Hflush, Hprog;
      try discriminate Hflush; injection Hprog as ->;
      (destruct e; cbn [react pipe ctl];
       [| split; [exists extra; split; assumption | right; right; repeat split; assumption] ..]);
      unfold step, freeze_iteration; cbn [pipe ctl]; branch; cbn [pipe ctl];
      cbn [encode advance_timestamp flushed submitted canvas];
      try (split;
           [ eexists (extra ++ [_]); rewrite Hsub, <- app_assoc; split; [reflexivity |];
             apply Forall_app; split; [exact Hall |];
             constructor; [unfold image; cbn; exact Hcanvas | constructor]
           | right; right; repeat split; assumption ]);
      (split; [exists extra; split; assumption |]);
      left; unfold winding_down;
      cbn [pipe ctl completed between_dates advance_timestamp flushed stopRequested orb andb];
      rewrite Hstop; apply orb_true_r.
Qed.

Lemma finishing_date_run (d : MapDate) (base : list (EncodeCall num)) events : forall m,
  finishing_date d base m -> finishing_date d base (run' events m).
Proof.
  induction events as [| e events IH]; intros m Hm; [exact Hm |].
  cbn. apply IH, finishing_date_react, Hm.
Qed.

End StopInProgress.

(** X6. Cancellation lets the date in progress finish and nothing more: once
    [stop()] has been called, every frame submitted from then on shows the
    date that was being processed at that point (its stepped frame and, for
    the last date, its freeze-frame repeats), and if no date was being
    processed no frame is submitted at all. *)
Theorem stop_finishes_date_in_progress {num : Type} {number : Number num}
  (eu4IncrementDate : Z -> DateInterval -> MapDate)
  (opts : TimelapseEncoderOptions num) (before after : list Event) :
  let m := run eu4IncrementDate opts before created in
  let m' := run eu4IncrementDate opts after m in
  In StopCall before ->
  exists extra,
    submitted (pipe m') = submitted (pipe m) ++ extra
    /\ match date_in_progress (ctl m) with
       | Some d => Forall (fun call => image call = Some d) extra
       | None => extra = []
       end.
Proof.
  intros m m' Hstop.
  assert (Hflag : stopRequested (pipe m) = true) by now apply stop_called_run.
  destruct (one_in_flight_run eu4IncrementDate opts before (one_in_flight_created))
    as (_ & Hq).
  fold m in Hq.
  destruct (date_in_progress (ctl m)) as [d |] eqn:Hprog.
  - assert (Hstart : finishing_date d (submitted (pipe m)) m).
    { split; [exact Hflag |]. split.
      - exists []. rewrite app_nil_r. split; [reflexivity | constructor].
      - destruct (ctl m) as [| date | date | date t | date | date | |];
          cbn [date_in_progress] in Hprog; try discriminate Hprog;
          injection Hprog as ->.
        + right. left. reflexivity.
        + right. right. destruct Hq as (Hcanvas & _). repeat split. exact Hcanvas.
        + right. right. destruct Hq as (Hcanvas & _). repeat split. exact Hcanvas. }
    destruct (finishing_date_run eu4IncrementDate opts after Hstart)
      as (_ & (extra & Hsub & Hall) & _).
    exists extra. split; [exact Hsub | exact Hall].
  - assert (Hw : winding_down m = true).
    { unfold winding_down. rewrite Hflag.
      destruct (ctl m); cbn [date_in_progress] in Hprog; try discriminate Hprog;
        cbn; rewrite ?orb_true_r; reflexivity. }
    destruct (winding_down_run eu4IncrementDate opts after m Hw) as (_ & Hs & _).
    exists []. rewrite app_nil_r. split; [exact Hs | reflexivity].
Qed.

Lemma stop_finishes_date_in_progress_witness :
  exists extra,
    submitted (pipe (run fixed_step_engine single_date_1fps (repeat Resume 10)
                       (run fixed_step_engine single_date_1fps [Resume; StopCall] created)))
    = submitted (pipe (run fixed_step_engine single_date_1fps [Resume; StopCall] created))
      ++ extra
    /\ Forall (fun call => image call = Some (mkdate 0)) extra.
Proof.
  apply (@stop_finishes_date_in_progress _ _ fixed_step_engine single_date_1fps
           [Resume; StopCall] (repeat Resume 10)).
  cbn. auto.
Defined.

(** ** The frames of an undisturbed run *)

(** Splits a goal into its conjuncts, leaving existentials alone. *)
Ltac conjs := repeat match goal with |- _ /\ _ => split end.

(** Closes the routine side conditions of an invariant. *)
Ltac side :=
  try assumption; try congruence; try (eexists; split; [reflexivity | assumption]);
  try (eexists; reflexivity).

Section UndisturbedRun.

Context {num : Type} {number : Number num}.
Variable eu4IncrementDate : Z -> DateInterval -> MapDate.
Variable opts : TimelapseEncoderOptions num.
Variable l : list MapDate.
Implicit Types (p : Pipeline num) (m : Machine num).

Local Abbreviation step' := (step eu4IncrementDate opts).
Local Abbreviation drive' := (drive eu4IncrementDate opts).
Local Abbreviation resume :=
  (dates_resume eu4IncrementDate (endDate opts) (interval opts)).
Local Abbreviation rest := (rest_of eu4IncrementDate opts).
Local Abbreviation final := (last l (startDate opts)).

Lemma rest_of_none (d : MapDate) (todo : list MapDate) :
  rest d todo -> resume d = None -> todo = [].
Proof.
  intros [[| fuel] Hrun] Hnone; [discriminate Hrun |].
  cbn [dates_from] in Hrun. rewrite Hnone in Hrun. now injection Hrun as <-.
Qed.

Lemma rest_of_some (d next : MapDate) (todo : list MapDate) :
  rest d todo -> resume d = Some next ->
  exists todo', todo = next :: todo' /\ rest next todo'.
Proof.
  intros [[| fuel] Hrun] Hsome; [discriminate Hrun |].
  cbn [dates_from] in Hrun. rewrite Hsome in Hrun.
  destruct (dates_from eu4IncrementDate (endDate opts) (interval opts) fuel next)
    as [l' |] eqn:Hrest; [| discriminate Hrun].
  injection Hrun as <-.
  destruct (dates_from_bounds _ _ _ _ _ Hrest) as (todo' & -> & _).
  exists todo'. split; [reflexivity |]. exists fuel. exact Hrest.
Qed.

Lemma rest_of_final (d : MapDate) (todo : list MapDate) :
  rest d todo -> (days d >=? days (endDate opts)) = true -> todo = [].
Proof.
  intros Hrest Hfinal. apply (rest_of_none Hrest).
  unfold dates_resume. now rewrite Hfinal.
Qed.

Lemma tracks_step m : tracks eu4IncrementDate opts l m ->
  tracks eu4IncrementDate opts l (step' m).
Proof.
  unfold tracks. destruct m as [p c]. cbn [pipe ctl].
  intros (Herr & Hstop & seen & todo & r & Hl & Himg & Hr & Hctl).
  destruct c as [| date | date | date t | date | date | |]; unfold step; cbn [pipe ctl].
  - (* Created *)
    destruct Hctl as (-> & todo' & -> & Hrest).
    unfold visit. rewrite Herr, Hstop. cbn [pipe ctl].
    split; [exact Herr | split; [exact Hstop |]].
    exists [], (startDate opts :: todo'), r. conjs; side.
  - (* AwaitColors: the stepped frame *)
    destruct Hctl as (todo' & -> & Hrest).
    rewrite (Hr ltac:(discriminate)) in Himg. cbn [repeat] in Himg.
    rewrite app_nil_r in Himg.
    split; [exact Herr | split; [exact Hstop |]].
    exists (seen ++ [date]), todo', 0%nat.
    cbn [encode create2dFrame submitted canvas].
    conjs; side.
    + rewrite Hl, <- app_assoc. reflexivity.
    + rewrite !map_app, Himg. cbn [repeat]. rewrite app_nil_r. reflexivity.
  - (* AwaitFlush: the cursor moves, the freeze frame starts on the last date *)
    destruct Hctl as (-> & Hcanvas & Hrest & seen' & ->).
    cbn [repeat] in Himg. rewrite app_nil_r in Himg.
    destruct (days date >=? days (endDate opts)) eqn:Hfinal.
    + assert (Hnil : todo = []) by exact (rest_of_final Hrest Hfinal). subst todo.
      assert (Hlast : date = final).
      { rewrite Hl, app_nil_r. symmetry. apply last_last. }
      unfold freeze_iteration. branch; cbn [pipe ctl];
        (split; [exact Herr | split; [exact Hstop |]]).
      * exists (seen' ++ [date]), [], 1%nat.
        cbn [encode advance_timestamp flushed submitted canvas].
        conjs; side.
        rewrite map_app, Himg. cbn [map repeat]. unfold image at 1. cbn.
        rewrite Hcanvas, Hlast. reflexivity.
      * exists (seen' ++ [date]), [], 0%nat.
        cbn [advance_timestamp flushed submitted].
        conjs; side.
        cbn [repeat]. rewrite app_nil_r. exact Himg.
    + cbn [pipe ctl]. split; [exact Herr | split; [exact Hstop |]].
      exists (seen' ++ [date]), todo, 0%nat.
      cbn [advance_timestamp flushed submitted].
      conjs; side.
      cbn [repeat]. rewrite app_nil_r. exact Himg.
  - (* AwaitFreezeFlush: one more repeat, or the date is yielded *)
    destruct Hctl as (-> & Hcanvas & Hlast & Hrest & Hseen).
    unfold freeze_iteration. branch; cbn [pipe ctl];
      (split; [exact Herr | split; [exact Hstop |]]).
    + exists seen, [], (S r).
      cbn [encode flushed submitted canvas].
      conjs; side.
      rewrite map_app, Himg, <- app_assoc. cbn [map]. unfold image at 1. cbn.
      rewrite Hcanvas, Hlast.
      change (repeat (Some final) (S r)) with (Some final :: repeat (Some final) r).
      rewrite (repeat_cons r (Some final)). reflexivity.
    + exists seen, [], r. cbn [flushed submitted].
      conjs; side.
  - (* Yielded *)
    destruct Hctl as (Hrest & Hseen).
    split; [exact Herr | split; [exact Hstop |]].
    exists seen, todo, r. conjs; side.
  - (* AwaitIncrement: the sequencer ends or hands over the next date *)
    destruct Hctl as (Hrest & seen' & ->).
    destruct (resume date) as [next |] eqn:Hresume; cbn [pipe ctl].
    + destruct (rest_of_some Hrest Hresume) as (todo' & -> & Hrest').
      rewrite (Hr ltac:(discriminate)) in *.
      unfold visit. rewrite Herr, Hstop. cbn [pipe ctl].
      split; [exact Herr | split; [exact Hstop |]].
      exists (seen' ++ [date]), (next :: todo'), 0%nat. conjs; side.
    + assert (Hnil : todo = []) by exact (rest_of_none Hrest Hresume). subst todo.
      split; [exact Herr | split; [exact Hstop |]].
      exists (seen' ++ [date]), [], r. conjs; side.
  - (* Returned *)
    split; [exact Herr | split; [exact Hstop |]].
    exists seen, todo, r. conjs; side.
  - destruct Hctl.
Qed.

End UndisturbedRun.

(** X7. When the sequencer emits the dates [l], an undisturbed run (the
    caller keeps pulling, no encoder error, no [stop()]) never throws, and at
    every point the frames submitted so far show a prefix of [l], one frame
    per date in order, followed by repeats of the last date of [l] only once
    every date has had its frame; when the generator has returned, every date
    of [l] has had its frame. *)
Theorem undisturbed_run_frames {num : Type} {number : Number num}
  (eu4IncrementDate : Z -> DateInterval -> MapDate)
  (opts : TimelapseEncoderOptions num) (fuel : nat) (l : list MapDate) (n : nat) :
  dates eu4IncrementDate (startDate opts) (endDate opts) (interval opts) fuel = Some l ->
  let m := drive eu4IncrementDate opts n created in
  (forall message, ctl m <> Thrown message)
  /\ exists seen todo r,
       l = seen ++ todo
       /\ map image (submitted (pipe m))
          = map Some seen ++ repeat (Some (last l (startDate opts))) r
       /\ (todo <> [] -> r = 0%nat)
       /\ (ctl m = Returned -> todo = []).
Proof.
  intros Hdates m.
  assert (Hstart : tracks eu4IncrementDate opts l created).
  { destruct (dates_from_bounds _ _ _ _ _ Hdates) as (todo' & Hl & _).
    split; [reflexivity | split; [reflexivity |]].
    exists [], l, 0%nat. conjs; try reflexivity.
    cbn [ctl created]. split; [reflexivity |].
    exists todo'. split; [exact Hl |]. exists fuel. rewrite <- Hl. exact Hdates. }
  assert (Hrun : forall k m0, tracks eu4IncrementDate opts l m0 ->
                              tracks eu4IncrementDate opts l (drive eu4IncrementDate opts k m0)).
  { induction k as [| k IH]; intros m0 Hm0; [exact Hm0 |].
    change (drive eu4IncrementDate opts (S k) m0)
      with (drive eu4IncrementDate opts k (step eu4IncrementDate opts m0)).
    apply IH, tracks_step, Hm0. }
  destruct (Hrun n created Hstart) as (_ & _ & seen & todo & r & Hl & Himg & Hr & Hctl).
  fold m in Himg, Hctl. split.
  - intros message Hthrown. rewrite Hthrown in Hctl. exact Hctl.
  - exists seen, todo, r. conjs; try assumption.
    intros Hret. rewrite Hret in Hctl. exact Hctl.
Qed.

Lemma undisturbed_run_frames_witness :
  exists r,
    map image (submitted (pipe (drive fixed_step_engine single_date_15fps 40 created)))
    = [Some (mkdate 0)] ++ repeat (Some (mkdate 0)) r.
Proof.
  destruct (@undisturbed_run_frames _ _ fixed_step_engine single_date_15fps 1 [mkdate 0] 40
              eq_refl)
    as (_ & seen & todo & r & Hl & Himg & _ & Hret).
  assert (Hnil : todo = []) by (apply Hret; vm_compute; reflexivity).
  subst todo. rewrite app_nil_r in Hl. subst seen.
  exists r. exact Himg.
Defined.

(** ** The overlay of [create2dFrame] *)

(** X8. Whatever drawing state the context was left in, [create2dFrame]
    paints the map at the origin, then a dark box flush with the top and the
    right edge of the recording canvas, 130 by 50 pixels on canvases up to
    2000 pixels wide and 260 by 100 on wider ones, then the brand and the
    date in white, right-aligned, in bold 12 and 20 pixel type (24 and 40 on
    wide canvases), anchored inside the box with the brand's baseline above
    the date's; the box starts inside the canvas unless the canvas is
    narrower than 130 pixels. *)
Theorem overlay_in_top_right_corner
  (canvasWidth : Z) (fontFamily date : string) (ctx2d : Context2d) :
  exists x w h brandFont dateFont bx by_ dx dy,
    painted (create2dFrame_paint canvasWidth fontFamily date ctx2d)
    = painted ctx2d
      ++ [PaintImage 0 0;
          PaintRect "#20272c" x 0 w h;
          PaintText "#ffffff" "right" brandFont "PDX.TOOLS" bx by_;
          PaintText "#ffffff" "right" dateFont date dx dy]
    /\ x + w = canvasWidth
    /\ (canvasWidth <= 2000 /\ w = 130 /\ h = 50
        /\ brandFont = ("700 12px " ++ fontFamily)%string
        /\ dateFont = ("700 20px " ++ fontFamily)%string
        \/ 2000 < canvasWidth /\ w = 260 /\ h = 100
           /\ brandFont = ("700 24px " ++ fontFamily)%string
           /\ dateFont = ("700 40px " ++ fontFamily)%string)
    /\ x < bx < canvasWidth
    /\ x < dx < canvasWidth
    /\ 0 < by_ < dy
    /\ dy < h
    /\ (0 <= x \/ canvasWidth < 130).
Proof.
  unfold create2dFrame_paint, fillText, fillRect, drawImage, paint, set_font,
    set_textAlign, set_fillStyle, overlay_scale.
  cbn [painted fillStyle textAlign font].
  do 9 eexists. split.
  - rewrite <- !app_assoc. cbn [app]. reflexivity.
  - destruct (Z.gtb_spec canvasWidth 2000) as [Hwide | Hnarrow].
    + repeat split; try lia. right. repeat split; lia.
    + repeat split; try lia. left. repeat split; lia.
Qed.

(** ** The factory *)

(** X9. [create] fails with the negotiation's "No supported codecs found"
    exactly when neither codec is reported as supported, whether or not a 2d
    context is available; with a supported codec it fails exactly when the
    context is missing; and when it succeeds the encoder starts from the fresh
    state ([timelapse()] begins at the start date with timestamp and frame
    counter at 0), keeps the options it was given, and its muxer track has
    the size of the map's canvas and the tag of the negotiated codec, vp9
    when vp9 is reported as supported and vp8 otherwise. *)
Theorem create_outcomes {num : Type} {number : Number num}
  (isConfigSupported : VideoEncoderConfig num -> Outcome (VideoEncoderSupport num))
  (mapWidth mapHeight : Z) (contextAvailable : bool) (bodyFont : string)
  (opts : TimelapseEncoderOptions num) :
  let reports := reports_support isConfigSupported mapWidth mapHeight (fps opts) in
  match create isConfigSupported mapWidth mapHeight contextAvailable bodyFont opts with
  | Throws message =>
      message = "No supported codecs found"%string
      /\ reports "vp09.00.10.08"%string = false /\ reports "vp8"%string = false
      \/ message = "expected recording canvas 2d contex to be defined"%string
         /\ contextAvailable = false
         /\ (reports "vp09.00.10.08"%string = true \/ reports "vp8"%string = true)
  | Returns encoder =>
      contextAvailable = true
      /\ {| pipe := state encoder; ctl := Created |} = created
      /\ options encoder = opts
      /\ fontFamily encoder = bodyFont
      /\ muxerWidth encoder = mapWidth
      /\ muxerHeight encoder = mapHeight
      /\ muxerCodec encoder = webmCodec (configured encoder)
      /\ muxerCodec encoder
         = (if reports "vp09.00.10.08"%string then V_VP9 else V_VP8)
      /\ (reports "vp09.00.10.08"%string = true \/ reports "vp8"%string = true)
  end.
Proof.
  intros reports. unfold create, findSupportedEncoder, codecs.
  destruct (reports "vp09.00.10.08"%string) eqn:Hvp9.
  - destruct (reports_support_true _ _ _ _ _ Hvp9) as (support & Hq & Hs).
    rewrite (try_codecs_supported _ _ _ _ _ V_VP9 _ Hq Hs). cbn [snd].
    destruct contextAvailable; cbn.
    + repeat split. left. reflexivity.
    + right. repeat split. left. reflexivity.
  - rewrite try_codecs_unsupported by exact Hvp9. cbn [snd].
    destruct (reports "vp8"%string) eqn:Hvp8.
    + destruct (reports_support_true _ _ _ _ _ Hvp8) as (support & Hq & Hs).
      rewrite (try_codecs_supported _ _ _ _ _ V_VP8 [] Hq Hs). cbn [snd].
      destruct contextAvailable; cbn.
      * repeat split. right. reflexivity.
      * right. repeat split. right. reflexivity.
    + rewrite try_codecs_unsupported by exact Hvp8. cbn.
      left. repeat split.
Qed.

(** ** The worker's colour buffers *)

Section Subarrays.

Implicit Types (arr : list Byte.byte) (n : nat).

Lemma to_integer_quotient (a b : Z) :
  0 <= a -> 0 < b -> to_integer (inject_Z a / inject_Z b)%Q = a / b.
Proof.
  intros Ha Hb. unfold to_integer.
  destruct b as [| b | b]; try lia.
  cbn. rewrite Z.mul_1_r. apply Z.quot_div_nonneg; lia.
Qed.

Lemma to_integer_two_thirds (a : Z) :
  0 <= a -> to_integer (inject_Z a * 2 / 3)%Q = a * 2 / 3.
Proof.
  intros Ha. unfold to_integer. cbn. rewrite !Z.mul_1_r.
  apply Z.quot_div_nonneg; lia.
Qed.

Lemma relative_index_inside (len i : Z) (q : Q) :
  to_integer q = i -> 0 <= i <= len -> relative_index len q = i.
Proof.
  intros Hq Hi. unfold relative_index. rewrite Hq.
  destruct (Z.ltb_spec i 0); lia.
Qed.

(** [subarray] between two cut points [a <= b] inside the array. *)
Lemma subarray_between arr (a b : nat) (qa qb : Q) :
  to_integer qa = Z.of_nat a -> to_integer qb = Z.of_nat b ->
  (a <= b <= List.length arr)%nat ->
  subarray arr qa (Some qb) = firstn (b - a) (skipn a arr).
Proof.
  intros Ha Hb Hab. unfold subarray.
  rewrite (relative_index_inside _ Ha) by lia.
  rewrite (relative_index_inside _ Hb) by lia.
  f_equal; [lia | f_equal; lia].
Qed.

Lemma subarray_from arr (a : nat) (qa : Q) :
  to_integer qa = Z.of_nat a -> (a <= List.length arr)%nat ->
  subarray arr qa None = skipn a arr.
Proof.
  intros Ha Hle. unfold subarray.
  rewrite (relative_index_inside _ Ha) by lia.
  replace (Z.to_nat (Z.of_nat a)) with a by lia.
  apply firstn_all2. rewrite length_skipn. lia.
Qed.

Lemma cut_half arr :
  to_integer (inject_Z (Z.of_nat (List.length arr)) / 2)%Q
  = Z.of_nat (List.length arr / 2).
Proof.
  change 2%Q with (inject_Z 2). rewrite to_integer_quotient by lia.
  now rewrite Nat2Z.inj_div.
Qed.

Lemma cut_third arr :
  to_integer (inject_Z (Z.of_nat (List.length arr)) / 3)%Q
  = Z.of_nat (List.length arr / 3).
Proof.
  change 3%Q with (inject_Z 3). rewrite to_integer_quotient by lia.
  now rewrite Nat2Z.inj_div.
Qed.

Lemma cut_two_thirds arr :
  to_integer (inject_Z (Z.of_nat (List.length arr)) * 2 / 3)%Q
  = Z.of_nat (List.length arr * 2 / 3).
Proof.
  rewrite to_integer_two_thirds by lia.
  rewrite Nat2Z.inj_div, Nat2Z.inj_mul. reflexivity.
Qed.

Lemma to_integer_zero : to_integer 0 = Z.of_nat 0.
Proof. reflexivity. Qed.

(** The two halves, as the code cuts them. *)
Lemma halves arr :
  subarray arr 0 (Some (inject_Z (Z.of_nat (List.length arr)) / 2)%Q)
  = firstn (List.length arr / 2) arr
  /\ subarray arr (inject_Z (Z.of_nat (List.length arr)) / 2)%Q None
     = skipn (List.length arr / 2) arr.
Proof.
  assert (Hhalf : (List.length arr / 2 <= List.length arr)%nat)
    by (apply Nat.Div0.div_le_upper_bound; lia).
  split.
  - rewrite (@subarray_between arr 0%nat _ 0%Q _ to_integer_zero (cut_half arr)) by lia.
    rewrite Nat.sub_0_r. reflexivity.
  - apply subarray_from; [apply cut_half | exact Hhalf].
Qed.

(** The three thirds, as the code cuts them. *)
Lemma thirds arr :
  let n := List.length arr in
  (n / 3 <= n * 2 / 3 <= n)%nat
  /\ subarray arr 0 (Some (inject_Z (Z.of_nat n) / 3)%Q) = firstn (n / 3) arr
  /\ subarray arr (inject_Z (Z.of_nat n) / 3)%Q (Some (inject_Z (Z.of_nat n) * 2 / 3)%Q)
     = firstn (n * 2 / 3 - n / 3) (skipn (n / 3) arr)
  /\ subarray arr (inject_Z (Z.of_nat n) * 2 / 3)%Q None = skipn (n * 2 / 3) arr.
Proof.
  intros n. subst n.
  assert (Hcuts : (List.length arr / 3 <= List.length arr * 2 / 3 <= List.length arr)%nat).
  { split.
    - apply Nat.Div0.div_le_mono. lia.
    - apply Nat.Div0.div_le_upper_bound. lia. }
  split; [exact Hcuts |]. split; [| split].
  - rewrite (@subarray_between arr 0%nat _ 0%Q _ to_integer_zero (cut_third arr))
      by lia.
    rewrite Nat.sub_0_r. reflexivity.
  - apply subarray_between; [apply cut_third | apply cut_two_thirds | lia].
  - apply subarray_from; [apply cut_two_thirds | lia].
Qed.

Lemma three_pieces arr (a b : nat) :
  (a <= b)%nat ->
  firstn a arr ++ firstn (b - a) (skipn a arr) ++ skipn b arr = arr.
Proof.
  intros Hab.
  replace (skipn b arr) with (skipn (b - a) (skipn a arr))
    by (rewrite skipn_skipn; f_equal; lia).
  rewrite (firstn_skipn (b - a) (skipn a arr)). apply firstn_skipn.
Qed.

End Subarrays.

Section MapColorsFacts.

Variable map_colors : MapPayload -> list Byte.byte.
Variable payload : MapPayload.

Local Abbreviation arr := (map_colors payload).
Local Abbreviation colors := (eu4MapColors map_colors payload).
Local Abbreviation n := (List.length (map_colors payload)).

(** The payload asks for three buffers: battles, or religion at a date. *)
Local Abbreviation three_buffers :=
  (kind payload = "battles"%string
   \/ kind payload = "religion"%string /\ date payload <> None).

(** The payload asks for two buffers and no country buffer. *)
Local Abbreviation two_buffers :=
  (kind payload <> "political"%string /\ kind payload <> "battles"%string
   /\ (kind payload <> "religion"%string \/ date payload = None)).

Lemma colors_political :
  kind payload = "political"%string ->
  colors = {| primary := firstn (n / 2) arr; secondary := skipn (n / 2) arr;
              country := Some (firstn (n / 2) arr) |}.
Proof.
  intros Hkind. unfold eu4MapColors. rewrite Hkind. cbn [String.eqb Ascii.eqb Bool.eqb].
  destruct (halves arr) as [-> ->]. reflexivity.
Qed.

Lemma colors_three :
  three_buffers ->
  colors = {| primary := firstn (n / 3) arr;
              secondary := firstn (n * 2 / 3 - n / 3) (skipn (n / 3) arr);
              country := Some (skipn (n * 2 / 3) arr) |}.
Proof.
  destruct (thirds arr) as (_ & Hp & Hs & Hc).
  intros [Hkind | [Hkind Hdate]]; unfold eu4MapColors; rewrite Hkind;
    cbn [String.eqb Ascii.eqb Bool.eqb].
  - rewrite Hp, Hs, Hc. reflexivity.
  - destruct (date payload); [| contradiction]. cbn [andb].
    rewrite Hp, Hs, Hc. reflexivity.
Qed.

Lemma colors_two :
  two_buffers ->
  colors = {| primary := firstn (n / 2) arr; secondary := skipn (n / 2) arr;
              country := None |}.
Proof.
  intros (Hpol & Hbat & Hrel). unfold eu4MapColors.
  destruct (String.eqb_spec (kind payload) "political"); [contradiction |].
  destruct (String.eqb_spec (kind payload) "battles"); [contradiction |].
  destruct (halves arr) as [Hp Hs].
  destruct (date payload) as [d |]; cbn [andb].
  - destruct (String.eqb_spec (kind payload) "religion") as [Heq | _].
    + destruct Hrel as [Hne | Hnone]; [contradiction | discriminate].
    + rewrite Hp, Hs. reflexivity.
  - rewrite Hp, Hs. reflexivity.
Qed.

End MapColorsFacts.

(** X10. [eu4MapColors] cuts the buffer of the save into consecutive pieces
    without losing, repeating or reordering a byte, whatever its length: for
    the political map the two halves, with the country buffer being the
    primary buffer again; for battles, and for religion at a date, three
    pieces (primary, secondary, country); in every other case, religion
    without a date included, the two halves and no country buffer. *)
Theorem map_colors_partition
  (map_colors : MapPayload -> list Byte.byte) (payload : MapPayload) :
  let arr := map_colors payload in
  let colors := eu4MapColors map_colors payload in
  (kind payload = "political"%string ->
   country colors = Some (primary colors) /\ primary colors ++ secondary colors = arr)
  /\ (kind payload = "battles"%string
      \/ kind payload = "religion"%string /\ date payload <> None ->
      exists third,
        country colors = Some third
        /\ primary colors ++ secondary colors ++ third = arr)
  /\ (kind payload <> "political"%string /\ kind payload <> "battles"%string
      /\ (kind payload <> "religion"%string \/ date payload = None) ->
      country colors = None /\ primary colors ++ secondary colors = arr).
Proof.
  intros arr colors. subst arr colors. split; [| split].
  - intros Hkind. rewrite (colors_political map_colors payload Hkind).
    cbn [country primary secondary]. split; [reflexivity | apply firstn_skipn].
  - intros Hthree. rewrite (colors_three map_colors payload Hthree).
    cbn [country primary secondary]. eexists. split; [reflexivity |].
    apply three_pieces. apply (thirds (map_colors payload)).
  - intros Htwo. rewrite (colors_two map_colors payload Htwo).
    cbn [country primary secondary]. split; [reflexivity | apply firstn_skipn].
Qed.

(** X11. The pieces are as even as whole bytes allow: a buffer of [n] bytes
    cut in two gives [n / 2] bytes to the primary buffer and the rest to the
    secondary one, so equal halves for an even [n]; cut in three it gives
    pieces that differ by at most one byte, and three pieces of [k] bytes
    when [n = 3 * k]. *)
Theorem map_colors_sizes
  (map_colors : MapPayload -> list Byte.byte) (payload : MapPayload) :
  let n := List.length (map_colors payload) in
  let colors := eu4MapColors map_colors payload in
  (kind payload = "political"%string
   \/ kind payload <> "political"%string /\ kind payload <> "battles"%string
      /\ (kind payload <> "religion"%string \/ date payload = None) ->
   List.length (primary colors) = (n / 2)%nat
   /\ List.length (secondary colors) = (n - n / 2)%nat
   /\ forall k, n = (2 * k)%nat ->
        List.length (primary colors) = k /\ List.length (secondary colors) = k)
  /\ (kind payload = "battles"%string
      \/ kind payload = "religion"%string /\ date payload <> None ->
      exists third,
        country colors = Some third
        /\ List.length (primary colors) = (n / 3)%nat
        /\ (List.length (primary colors) <= List.length (secondary colors)
            <= List.length (primary colors) + 1)%nat
        /\ (List.length (primary colors) <= List.length third
            <= List.length (primary colors) + 1)%nat
        /\ forall k, n = (3 * k)%nat ->
             List.length (primary colors) = k
             /\ List.length (secondary colors) = k /\ List.length third = k).
Proof.
  intros n colors. subst colors. split.
  - intros Hcase.
    assert (Hhalf : (n / 2 <= n)%nat) by (apply Nat.Div0.div_le_upper_bound; lia).
    assert (Hshape : primary (eu4MapColors map_colors payload)
                     = firstn (n / 2) (map_colors payload)
                     /\ secondary (eu4MapColors map_colors payload)
                        = skipn (n / 2) (map_colors payload)).
    { destruct Hcase as [Hkind | Htwo].
      - rewrite (colors_political map_colors payload Hkind). split; reflexivity.
      - rewrite (colors_two map_colors payload Htwo). split; reflexivity. }
    destruct Hshape as [-> ->].
    rewrite length_firstn, length_skipn. fold n.
    split; [lia | split; [lia |]].
    intros k Hk. rewrite Hk, Nat.mul_comm, Nat.div_mul by lia. lia.
  - intros Hthree. rewrite (colors_three map_colors payload Hthree).
    cbn [country primary secondary]. eexists. split; [reflexivity |].
    destruct (thirds (map_colors payload)) as (Hcuts & _). fold n in Hcuts.
    rewrite !length_firstn, !length_skipn. fold n.
    pose proof (Nat.div_mod_eq n 3) as Hn.
    pose proof (Nat.mod_upper_bound n 3 ltac:(lia)) as Hmod.
    pose proof (Nat.div_mod_eq (n * 2) 3) as Hn2.
    pose proof (Nat.mod_upper_bound (n * 2) 3 ltac:(lia)) as Hmod2.
    repeat split; try lia.
    all: intros; subst; lia.
Qed.

Lemma map_colors_partition_witness :
  (exists third,
     country (eu4MapColors (fun _ => seven_bytes) battles_payload) = Some third
     /\ primary (eu4MapColors (fun _ => seven_bytes) battles_payload)
        ++ secondary (eu4MapColors (fun _ => seven_bytes) battles_payload)
        ++ third = seven_bytes)
  /\ country (eu4MapColors (fun _ => seven_bytes) undated_religion_payload) = None
  /\ primary (eu4MapColors (fun _ => seven_bytes) undated_religion_payload)
     ++ secondary (eu4MapColors (fun _ => seven_bytes) undated_religion_payload)
     = seven_bytes.
Proof.
  split.
  - apply (proj1 (proj2 (map_colors_partition (fun _ => seven_bytes) battles_payload))).
    left. reflexivity.
  - apply (proj2 (proj2
      (map_colors_partition (fun _ => seven_bytes) undated_religion_payload))).
    split; [discriminate | split; [discriminate | right; reflexivity]].
Defined.

Lemma map_colors_sizes_witness :
  List.length (primary (eu4MapColors (fun _ => seven_bytes) undated_religion_payload))
  = 3%nat
  /\ List.length (secondary (eu4MapColors (fun _ => seven_bytes) undated_religion_payload))
     = 4%nat
  /\ List.length (primary (eu4MapColors (fun _ => seven_bytes) battles_payload)) = 2%nat.
Proof.
  destruct (proj1 (map_colors_sizes (fun _ => seven_bytes) undated_religion_payload))
    as (Hp & Hs & _).
  { right. split; [discriminate | split; [discriminate | right; reflexivity]]. }
  destruct (proj2 (map_colors_sizes (fun _ => seven_bytes) battles_payload))
    as (third & _ & Hp3 & _).
  { left. reflexivity. }
  exact (conj Hp (conj Hs Hp3)).
Defined.

(** ** Finalizing after a run *)

Section AfterRun.

Context {num : Type} {number : Number num}.
Variable eu4IncrementDate : Z -> DateInterval -> MapDate.
Variable opts : TimelapseEncoderOptions num.

(** Without an encoder error nothing touches the captured error or closes
    the encoder. *)
Lemma step_keeps_error (m : Machine num) :
  error (pipe (step eu4IncrementDate opts m)) = error (pipe m).
Proof.
  by_step m; try reflexivity; assumption.
Qed.

Lemma error_free_run events : forall m : Machine num,
  error_free events ->
  error (pipe (run eu4IncrementDate opts events m)) = error (pipe m)
  /\ encoderClosed (pipe (run eu4IncrementDate opts events m)) = encoderClosed (pipe m).
Proof.
  induction events as [| e events IH]; intros m Hfree; [split; reflexivity |].
  assert (Hfree' : error_free events).
  { intros message Hin. apply (Hfree message). now right. }
  destruct (IH (react eu4IncrementDate opts m e) Hfree') as (He & Hc).
  change (run eu4IncrementDate opts (e :: events) m)
    with (run eu4IncrementDate opts events (react eu4IncrementDate opts m e)).
  rewrite He, Hc.
  destruct e as [| message |]; cbn [react pipe].
  - split; [apply step_keeps_error | apply step_keeps_encoder].
  - exfalso. apply (Hfree message). now left.
  - split; reflexivity.
Qed.

End AfterRun.

(** X12. After a run without an encoder error, [finish()] called while the
    generator is not waiting for a flush (a date has just been yielded, the
    generator has completed, ...) finds the encoder open and hands the muxer
    exactly the frames submitted so far, in order: it returns the container
    of those frames and closes the encoder. *)
Theorem finish_finalizes_flushed_frames {num : Type} {number : Number num}
  (eu4IncrementDate : Z -> DateInterval -> MapDate)
  (opts : TimelapseEncoderOptions num)
  (Buffer : Type) (finalize : list (EncodeCall num) -> option Buffer)
  (events : list Event) :
  error_free events ->
  let m := run eu4IncrementDate opts events created in
  awaiting_flush (ctl m) = false ->
  encoder_open (pipe m)
  /\ (forall out, finalize (submitted (pipe m)) = Some out ->
      finish finalize (pipe m) = (Returns out, close_encoder (pipe m)))
  /\ finish buffer_finalize (pipe m)
     = (Returns {| clusters := submitted (pipe m) |}, close_encoder (pipe m)).
Proof.
  intros Hfree m Hflush.
  destruct (@error_free_run _ _ eu4IncrementDate opts events created Hfree) as (Herr & Hopen).
  fold m in Herr, Hopen.
  destruct (one_in_flight_run eu4IncrementDate opts events one_in_flight_created)
    as (Hall & Hq).
  fold m in Hall, Hq.
  assert (Hmux : muxer (pipe m) = submitted (pipe m)).
  { destruct (ctl m); cbn [awaiting_flush] in Hflush; try discriminate Hflush;
      rewrite Hq, app_nil_r in Hall; exact Hall. }
  split; [split; assumption | split].
  - intros out Hout. unfold finish. rewrite Hmux, Hout. reflexivity.
  - unfold finish, buffer_finalize. rewrite Hmux. reflexivity.
Qed.

Lemma finish_finalizes_flushed_frames_witness :
  finish buffer_finalize
    (pipe (run fixed_step_engine daily_200 (repeat Resume 3) created))
  = (Returns
       {| clusters := submitted (pipe (run fixed_step_engine daily_200 (repeat Resume 3)
                                         created)) |},
     close_encoder (pipe (run fixed_step_engine daily_200 (repeat Resume 3) created))).
Proof.
  apply (proj2 (proj2
    (@finish_finalizes_flushed_frames _ _ fixed_step_engine daily_200 _
       (@buffer_finalize float) (repeat Resume 3)
       (fun message Hin =>
          ltac:(repeat (destruct Hin as [Hin | Hin]; [discriminate Hin |]); exact Hin))
       eq_refl))).
Defined.
